(** * TcEx inputs, variable grammar and environment indirection

    A shallow embedding of three parts of the TcEx framework:

    - [tcex/inputs/inputs.py]: the [Inputs] class (configuration merge,
      type coercion of AOT / secure parameters, resolved arguments);
    - [tcex/bin/test.py]: [ValidationTemplates._method_name] and the
      playbook-variable pattern;
    - [tcex/testing/test_case.py]: [TestCase.resolve_env_args].

    Python strings are modelled by [string]; a character stands for a code
    point below 256.  Dictionaries are [gmap string _]; the dictionaries that
    the code mutates in place live in a store of objects addressed by
    locations, so that aliasing is visible. *)

From Stdlib Require Import Ascii String NArith ZArith.
From stdpp Require Import base option list gmap sets strings.

(** ** Python string primitives *)

Module PyStr.

Definition code (c : ascii) : N := N_of_ascii c.

Definition in_range (lo hi : N) (c : ascii) : bool :=
  ((lo <=? code c) && (code c <=? hi))%N.

Definition is_upper (c : ascii) : bool := in_range 65 90 c.
Definition is_lower (c : ascii) : bool := in_range 97 122 c.
Definition is_alpha (c : ascii) : bool := is_upper c || is_lower c.
Definition is_digit (c : ascii) : bool := in_range 48 57 c.

(** [str.isspace] on the code points below 256. *)
Definition is_space (c : ascii) : bool :=
  in_range 9 13 c || in_range 28 32 c
  || (code c =? 133)%N || (code c =? 160)%N.

Definition newline : ascii := "010"%char.

(** [str.lower] on one character: the ASCII capitals and the Latin-1
    capitals (all of 192..222 but the multiplication sign 215). *)
Definition lower_char (c : ascii) : ascii :=
  if is_upper c || in_range 192 214 c || in_range 216 222 c
  then ascii_of_N (code c + 32)
  else c.

Fixpoint lower (s : string) : string :=
  match s with
  | EmptyString => EmptyString
  | String c s' => String (lower_char c) (lower s')
  end.

Fixpoint lstrip (s : string) : string :=
  match s with
  | EmptyString => EmptyString
  | String c s' => if is_space c then lstrip s' else s
  end.

Fixpoint rstrip (s : string) : string :=
  match s with
  | EmptyString => EmptyString
  | String c s' =>
      match rstrip s' with
      | EmptyString => if is_space c then EmptyString else String c EmptyString
      | r => String c r
      end
  end.

(** [str.strip()] *)
Definition strip (s : string) : string := rstrip (lstrip s).

(** [strip_prefix p s] is the rest of [s] after the prefix [p], when [s]
    starts with [p]. *)
Fixpoint strip_prefix (p s : string) : option string :=
  match p with
  | EmptyString => Some s
  | String a p' =>
      match s with
      | EmptyString => None
      | String b s' => if Ascii.eqb a b then strip_prefix p' s' else None
      end
  end.

(** The scan behind [str.split(sep)] for a non-empty [sep]: [cur] is the
    piece being collected, [skip] counts the characters of a separator
    that was just recognised and is still to be passed over. *)
Fixpoint split_scan (sep cur s : string) (skip : nat) : list string :=
  match s with
  | EmptyString => [cur]
  | String c s' =>
      match skip with
      | S n => split_scan sep cur s' n
      | O =>
          match strip_prefix sep s with
          | Some _ => cur :: split_scan sep EmptyString s' (String.length sep - 1)
          | None => split_scan sep (cur +:+ String c EmptyString) s' 0
          end
      end
  end.

(** [s.split(sep)]; [None] stands for [ValueError: empty separator]. *)
Definition split (sep s : string) : option (list string) :=
  match sep with
  | EmptyString => None
  | _ => Some (split_scan sep EmptyString s 0)
  end.

Fixpoint join (sep : string) (l : list string) : string :=
  match l with
  | [] => EmptyString
  | [x] => x
  | x :: l' => x +:+ sep +:+ join sep l'
  end.

(** [s.replace(old, new)] for a non-empty [old]. *)
Definition replace (old new s : string) : string :=
  match split old s with
  | Some l => join new l
  | None => s
  end.

(** [sub in s] *)
Fixpoint contains (sub s : string) : bool :=
  match strip_prefix sub s with
  | Some _ => true
  | None => match s with
            | EmptyString => false
            | String _ s' => contains sub s'
            end
  end.

Fixpoint all_chars (p : ascii → bool) (s : string) : bool :=
  match s with
  | EmptyString => true
  | String c s' => p c && all_chars p s'
  end.

End PyStr.

(** ** A backtracking matcher for the fragment of [re] the sources use *)

Module Re.
Import PyStr.

Inductive regex : Type :=
| Lit (l : string)                (* literal text *)
| Plus (cls : ascii → bool)       (* [..]+ , greedy *)
| Star (cls : ascii → bool)       (* [..]* , greedy *)
| Seq (r1 r2 : regex)
| Alt (r1 r2 : regex)             (* r1|r2 *)
| NotAhead (r : regex)            (* (?!r) *)
| Group (n : nat) (r : regex)     (* capturing group number n *)
| Bol                             (* ^ *)
| Eol.                            (* $ *)

Abbreviation groups := (gmap nat string).

(** Continuations receive the position reached, the text that is left and
    the groups captured so far. *)
Definition cont := nat → string → groups → option groups.

Definition take (n : nat) (s : string) : string := String.substring 0 n s.

(** Greedy repetition of a character class: the longest run is tried
    first, shorter ones on failure of the continuation. *)
Fixpoint greedy (cls : ascii → bool) (pos : nat) (s : string)
    (k : nat → string → option groups) : option groups :=
  match s with
  | String c s' =>
      if cls c then
        match greedy cls (S pos) s' k with
        | Some g => Some g
        | None => k pos s
        end
      else k pos s
  | EmptyString => k pos s
  end.

Fixpoint run (r : regex) (pos : nat) (s : string) (g : groups) (k : cont)
    : option groups :=
  match r with
  | Lit l =>
      match strip_prefix l s with
      | Some s' => k (pos + String.length l) s' g
      | None => None
      end
  | Plus cls =>
      match s with
      | String c s' => if cls c then greedy cls (S pos) s' (λ p t, k p t g) else None
      | EmptyString => None
      end
  | Star cls => greedy cls pos s (λ p t, k p t g)
  | Seq r1 r2 => run r1 pos s g (λ p t g', run r2 p t g' k)
  | Alt r1 r2 =>
      match run r1 pos s g k with
      | Some g' => Some g'
      | None => run r2 pos s g k
      end
  | NotAhead r' =>
      match run r' pos s g (λ _ _ g', Some g') with
      | Some _ => None
      | None => k pos s g
      end
  | Group n r' => run r' pos s g (λ p t g', k p t (<[n := take (p - pos) s]> g'))
  | Bol => if Nat.eqb pos 0 then k pos s g else None
  | Eol =>
      (* end of the text, or just before a line break that ends it *)
      match s with
      | EmptyString => k pos s g
      | String c EmptyString => if Ascii.eqb c newline then k pos s g else None
      | _ => None
      end
  end.

Definition accept : cont := λ _ _ g, Some g.

(** The text does not go on with a character of the class. *)
Definition stops (cls : ascii → bool) (rest : string) : Prop :=
  match rest with
  | EmptyString => True
  | String c _ => cls c = false
  end.

(** [re.match(r, s)]: a match starting at position 0. *)
Definition re_match (r : regex) (s : string) : option groups :=
  run r 0 s ∅ accept.

(** [re.search(r, s)]: the first position from which [r] matches. *)
Fixpoint search_from (r : regex) (pos : nat) (s : string) : option groups :=
  match run r pos s ∅ accept with
  | Some g => Some g
  | None =>
      match s with
      | EmptyString => None
      | String _ s' => search_from r (S pos) s'
      end
  end.

Definition re_search (r : regex) (s : string) : option groups :=
  search_from r 0 s.

End Re.

(** ** Exceptions *)

Inductive exn : Type :=
| AttributeError
| IndexError
| KeyError
| TypeError
| ValueError
| RuntimeError (msg : string)
| SystemExit.

(** ** [tcex/bin/test.py]: [ValidationTemplates] *)

Module ValidationTemplates.
Import PyStr Re.

(** [[A-Za-z0-9_\.\-\[\]]] *)
Definition name_char (c : ascii) : bool :=
  is_alpha c || is_digit c
  || Ascii.eqb c "_" || Ascii.eqb c "." || Ascii.eqb c "-"
  || Ascii.eqb c "[" || Ascii.eqb c "]".

(** [[A-Za-z0-9_-]] *)
Definition type_char (c : ascii) : bool :=
  is_alpha c || is_digit c || Ascii.eqb c "_" || Ascii.eqb c "-".

(** The alternatives of the type group, in the order of the source. *)
Definition variable_type : regex :=
  Alt (Lit "StringArray") (Alt (Lit "BinaryArray") (Alt (Lit "KeyValueArray")
  (Alt (Lit "TCEntityArray") (Alt (Lit "TCEnhancedEntityArray")
  (Alt (Lit "String") (Alt (Lit "Binary") (Alt (Lit "KeyValue")
  (Alt (Lit "TCEntity") (Alt (Lit "TCEnhancedEntity")
  (Seq (NotAhead (Lit "String")) (Seq (NotAhead (Lit "Binary"))
  (Seq (NotAhead (Lit "KeyValue")) (Seq (NotAhead (Lit "TCEntity"))
  (Seq (NotAhead (Lit "TCEnhancedEntity")) (Plus type_char))))))))))))))).

(** [_variable_pattern] *)
Definition _variable_pattern : regex :=
  Seq (Lit "#") (Seq (Group 1 (Plus is_alpha))
  (Seq (Lit ":") (Seq (Group 2 (Plus is_digit))
  (Seq (Lit ":") (Seq (Group 3 (Plus name_char))
  (Seq (Lit "!") (Group 4 variable_type))))))).

(** [re.compile(r'^{}$'.format(self._variable_pattern))] *)
Definition _variable_match : regex := Seq Bol (Seq _variable_pattern Eol).

(** [re.compile(self._variable_pattern)] *)
Definition _variable_parse : regex := _variable_pattern.

(** [_method_name(variable)]; the argument is [None] or a string. *)
Definition _method_name (variable : option string) : exn + option string :=
  match variable with
  | None => inr None
  | Some variable =>
      let variable := strip variable in
      match re_match _variable_match variable with
      | Some _ =>
          match re_search _variable_parse variable with
          | Some var =>
              match var !! 3, var !! 4 with
              | Some name, Some type =>
                  let variable_name := lower (replace "." "_" name) in
                  let variable_type := lower type in
                  inr (Some (variable_name +:+ "_" +:+ variable_type))
              | _, _ => inl AttributeError
              end
          | None => inl AttributeError
          end
      | None => inr None
      end
  end.

End ValidationTemplates.

(** ** [tcex/testing/test_case.py]: [TestCase.resolve_env_args] *)

Module TestCase.
Import PyStr Re.

(** [.] : any character but a line break *)
Definition dot (c : ascii) : bool := negb (Ascii.eqb c newline).

(** The compiled pattern [env_var]: start of text, the literal [$env.],
    one group of any number of [.], end of text. *)
Definition env_var : regex :=
  Seq Bol (Seq (Lit "$env.") (Seq (Group 1 (Star dot)) Eol)).

(** Both patterns, by their literal. *)
Definition indirection (prefix : string) : regex :=
  Seq Bol (Seq (Lit prefix) (Seq (Group 1 (Star dot)) Eol)).

(** The compiled pattern [envs_var], with the literal [$envs.]. *)
Definition envs_var : regex :=
  Seq Bol (Seq (Lit "$envs.") (Seq (Group 1 (Star dot)) Eol)).

(** [os.getenv(key, default)] *)
Definition getenv (environ : gmap string string) (key default : string) : string :=
  match environ !! key with
  | Some v => v
  | None => default
  end.

(** [m.groups()[0]] handed to [os.getenv], which wants a string. *)
Definition getenv_group (environ : gmap string string) (m : groups)
    (default : string) : exn + string :=
  match m !! 1 with
  | Some env_key => inr (getenv environ env_key default)
  | None => inl TypeError
  end.

Definition resolve_env_args (environ : gmap string string) (value : string)
    : exn + string :=
  match re_match env_var value with
  | Some m => getenv_group environ m value
  | None =>
      match re_match envs_var value with
      | Some m => getenv_group environ m value
      | None => inr value
      end
  end.

End TestCase.

(** ** Python values and the store *)

#[warnings="-register-all"]
Inductive val : Type :=
| VNone
| VBool (b : bool)
| VInt (z : Z)
| VStr (s : string)
| VList (l : list val)
| VDict (d : gmap string val).

(** Truth value of an object, as [if x:] takes it. *)
Definition truthy (v : val) : bool :=
  match v with
  | VNone => false
  | VBool b => b
  | VInt z => negb (z =? 0)%Z
  | VStr s => negb (String.eqb s "")
  | VList l => match l with [] => false | _ => true end
  | VDict d => negb (bool_decide (d = ∅))
  end.

Definition is_none (v : val) : bool :=
  match v with VNone => true | _ => false end.

(** Sequencing of two steps that may raise. *)
Definition and_then {A B} (r : exn + A) (f : A → exn + B) : exn + B :=
  match r with
  | inr a => f a
  | inl e => inl e
  end.

(** [v[key]] for a string key. *)
Definition subscript (v : val) (key : string) : exn + val :=
  match v with
  | VDict d => match d !! key with Some x => inr x | None => inl KeyError end
  | _ => inl TypeError
  end.

(** [value.split(sep)]: only strings have the method. *)
Definition py_split (v : val) (sep : string) : exn + val :=
  match v with
  | VStr s =>
      match PyStr.split sep s with
      | Some l => inr (VList (VStr <$> l))
      | None => inl ValueError
      end
  | _ => inl AttributeError
  end.

(** [v.lower()] *)
Definition py_lower (v : val) : exn + string :=
  match v with
  | VStr s => inr (PyStr.lower s)
  | _ => inl AttributeError
  end.

(** [str(v)] as [format] prints it, for what the sources format. *)
Definition fmt_reason (reason : option string) : string :=
  match reason with Some s => s | None => "None" end.

(** Locations of dictionary objects (a [Namespace] is its [__dict__]). *)
Definition loc := nat.

(** What a caller hands over: a dictionary object it holds, or anything
    else by value. *)
Inductive pyobj : Type :=
| ODict (l : loc)
| OVal (v : val).

Inductive level : Type := Info | Warning | Error.

(** Observable steps: entries of the methods whose order matters, and the
    calls to the collaborators. *)
Inductive event : Type :=
| Enter (method : string)
| Log (lvl : level) (msg : string)
| TokenRegister (name : string) (token expires : val)
| AotBlpop
| SessionGet (url : string)
| Logger (method : string) (args : list val).

(** A response of [requests]: [json] is what [r.json()] gives. *)
Record response : Type := Response {
  ok : bool;
  text : string;
  reason : option string;
  json : exn + val;
}.

(** [parse_known_args(namespace=ns)] on [sys.argv]: the namespace as it
    leaves it, and the unknown arguments or the exception. *)
Definition parser : Type :=
  list string → gmap string val → (exn + list string) * gmap string val.

(** The collaborators reached through [self.tcex], and the library calls
    whose code is not part of the package. *)
Record TcEx : Type := {
  ij_params_dict : gmap string (gmap string val);
  ij_list_delimiter : string;
  utils_to_bool : val → bool;
  playbook_read : string → exn + val;
  playbook_aot_blpop : exn + val;
  session_get : string → response;
  TcArgumentParser : parser;
  json_load : string → exn + val;
  (* [os.access(path, os.W_OK)] *)
  os_access_w : string → exn + bool;
  (* the items [dict.update(v)] merges when [v] is not a dictionary *)
  update_items : val → exn + gmap string val;
}.

Record state : Type := State {
  heap : gmap loc (gmap string val);
  files : gmap string string;
  argv : list string;
  trace : list event;
  (* attributes of the instance *)
  _parsed : bool;
  _parsed_resolved : bool;
  _default_args : loc;
  _default_args_resolved : loc;
  _unknown_args : list string;
  self_parser : parser;
  parser_namespace : option loc;
  (* [self.tcex._default_args] *)
  tcex_default_args : option loc;
}.

Definition set_heap (f : gmap loc (gmap string val) → gmap loc (gmap string val))
    (s : state) : state :=
  State (f (heap s)) (files s) (argv s) (trace s) (_parsed s) (_parsed_resolved s)
    (_default_args s) (_default_args_resolved s) (_unknown_args s) (self_parser s)
    (parser_namespace s) (tcex_default_args s).

Definition set_files (f : gmap string string → gmap string string) (s : state) : state :=
  State (heap s) (f (files s)) (argv s) (trace s) (_parsed s) (_parsed_resolved s)
    (_default_args s) (_default_args_resolved s) (_unknown_args s) (self_parser s)
    (parser_namespace s) (tcex_default_args s).

Definition add_event (e : event) (s : state) : state :=
  State (heap s) (files s) (argv s) (trace s ++ [e]) (_parsed s) (_parsed_resolved s)
    (_default_args s) (_default_args_resolved s) (_unknown_args s) (self_parser s)
    (parser_namespace s) (tcex_default_args s).

Definition set_parsed (b : bool) (s : state) : state :=
  State (heap s) (files s) (argv s) (trace s) b (_parsed_resolved s)
    (_default_args s) (_default_args_resolved s) (_unknown_args s) (self_parser s)
    (parser_namespace s) (tcex_default_args s).

Definition set_parsed_resolved (b : bool) (s : state) : state :=
  State (heap s) (files s) (argv s) (trace s) (_parsed s) b
    (_default_args s) (_default_args_resolved s) (_unknown_args s) (self_parser s)
    (parser_namespace s) (tcex_default_args s).

Definition set_default_args (l : loc) (s : state) : state :=
  State (heap s) (files s) (argv s) (trace s) (_parsed s) (_parsed_resolved s)
    l (_default_args_resolved s) (_unknown_args s) (self_parser s)
    (parser_namespace s) (tcex_default_args s).

Definition set_default_args_resolved (l : loc) (s : state) : state :=
  State (heap s) (files s) (argv s) (trace s) (_parsed s) (_parsed_resolved s)
    (_default_args s) l (_unknown_args s) (self_parser s)
    (parser_namespace s) (tcex_default_args s).

Definition set_unknown_args (u : list string) (s : state) : state :=
  State (heap s) (files s) (argv s) (trace s) (_parsed s) (_parsed_resolved s)
    (_default_args s) (_default_args_resolved s) u (self_parser s)
    (parser_namespace s) (tcex_default_args s).

Definition set_self_parser (p : parser) (s : state) : state :=
  State (heap s) (files s) (argv s) (trace s) (_parsed s) (_parsed_resolved s)
    (_default_args s) (_default_args_resolved s) (_unknown_args s) p
    (parser_namespace s) (tcex_default_args s).

Definition set_parser_namespace (l : loc) (s : state) : state :=
  State (heap s) (files s) (argv s) (trace s) (_parsed s) (_parsed_resolved s)
    (_default_args s) (_default_args_resolved s) (_unknown_args s) (self_parser s)
    (Some l) (tcex_default_args s).

Definition set_tcex_default_args (l : loc) (s : state) : state :=
  State (heap s) (files s) (argv s) (trace s) (_parsed s) (_parsed_resolved s)
    (_default_args s) (_default_args_resolved s) (_unknown_args s) (self_parser s)
    (parser_namespace s) (Some l).

(** ** Computations: state and exceptions *)

Definition M (A : Type) : Type := state → (exn + A) * state.

Definition ret {A} (a : A) : M A := λ s, (inr a, s).
Definition raise {A} (e : exn) : M A := λ s, (inl e, s).

Definition bind {A B} (m : M A) (k : A → M B) : M B :=
  λ s, match m s with
       | (inr a, s') => k a s'
       | (inl e, s') => (inl e, s')
       end.

Definition lift {A} (r : exn + A) : M A := λ s, (r, s).
Definition gets {A} (f : state → A) : M A := λ s, (inr (f s), s).
Definition modify (f : state → state) : M unit := λ s, (inr tt, f s).
Definition emit (e : event) : M unit := modify (add_event e).

Declare Scope py_scope.
Delimit Scope py_scope with py.
Notation "x <- m ;; k" := (bind m (λ x, k))
  (at level 20, m at level 99, k at level 200, only parsing) : py_scope.
Notation "m ;; k" := (bind m (λ _, k))
  (at level 100, k at level 200, only parsing, right associativity) : py_scope.
Local Open Scope py_scope.

(** [for x in l: body x] *)
Fixpoint for_each {A} (l : list A) (body : A → M unit) : M unit :=
  match l with
  | [] => ret tt
  | x :: l' => body x ;; for_each l' body
  end.

Definition when (b : bool) (m : M unit) : M unit := if b then m else ret tt.

(** ** [tcex/inputs/inputs.py]: the [Inputs] class *)

Module Inputs.

Definition dquote : string := String "034"%char EmptyString.
Definition line_break : string := String PyStr.newline EmptyString.

(** *** Objects in the store *)

Definition getattr (ns : loc) (name : string) : M val :=
  λ s, match heap s !! ns ≫= (λ d, d !! name) with
       | Some v => (inr v, s)
       | None => (inl AttributeError, s)
       end.

Definition setattr (ns : loc) (name : string) (v : val) : M unit :=
  modify (set_heap (alter (<[name := v]>) ns)).

(** A new object. *)
Definition alloc (d : gmap string val) : M loc :=
  λ s, let l := fresh (dom (heap s)) in (inr l, set_heap (<[l := d]>) s).

Definition read_dict (l : loc) : M (gmap string val) :=
  gets (λ s, default ∅ (heap s !! l)).

(** [list(d)] *)
Definition keys (d : gmap string val) : list string := (map_to_list d).*1.

(** [obj.update(d)] on the object at [l] *)
Definition dict_update (l : loc) (d : gmap string val) : M unit :=
  modify (set_heap (alter (λ d0, d ∪ d0) l)).

(** [del obj[key]] *)
Definition dict_del (l : loc) (key : string) : M unit :=
  modify (set_heap (alter (delete key) l)).

(** *** Static lists *)

Definition tc_bool_args : list string :=
  [ "apply_proxy_external"; "apply_proxy_ext"; "apply_proxy_tc";
    "batch_halt_on_error"; "tc_aot_enabled"; "tc_log_to_api";
    "tc_proxy_external"; "tc_proxy_tc"; "tc_secure_params"; "tc_verify" ].

Definition tc_reserved_args : list string :=
  [ "tc_token"; "tc_token_expires"; "api_access_id"; "api_secret_key";
    "batch_action"; "batch_chunk"; "batch_halt_on_error";
    "batch_poll_interval"; "batch_interval_max"; "batch_write_type";
    "tc_playbook_db_type"; "tc_playbook_db_context"; "tc_playbook_db_path";
    "tc_playbook_db_port"; "tc_playbook_out_variables"; "api_default_org";
    "tc_api_path"; "tc_in_path"; "tc_log_file"; "tc_log_path"; "tc_out_path";
    "tc_secure_params"; "tc_temp_path"; "tc_user_id"; "tc_proxy_host";
    "tc_proxy_port"; "tc_proxy_username"; "tc_proxy_password";
    "tc_proxy_external"; "tc_proxy_tc"; "tc_log_to_api"; "tc_log_level";
    "logging" ].

Section Methods.
Context (tcex : TcEx).

(** *** [register_token] *)
Definition register_token : M unit :=
  emit (Enter "register_token") ;;
  ns <- gets _default_args ;;
  tc_token <- getattr ns "tc_token" ;;
  if is_none tc_token then ret tt
  else
    tc_token_expires <- getattr ns "tc_token_expires" ;;
    emit (TokenRegister "MainThread" tc_token tc_token_expires).

(** *** [config] *)

(** The body of [config] once [config_data] is known to be a
    dictionary, the object at [config_data]. *)
Definition config_dict (config_data : loc) (preserve : bool) : M unit :=
  when preserve
    (d <- read_dict config_data ;;
     for_each (keys d) (λ key,
       sys_argv <- gets argv ;;
       when (bool_decide ("--" +:+ key ∈ sys_argv))
         (dict_del config_data key))) ;;
  d <- read_dict config_data ;;
  ns <- gets _default_args ;;
  dict_update ns d ;;
  register_token.

Definition config (config_data : pyobj) (preserve : bool) : M unit :=
  match config_data with
  | ODict l => config_dict l preserve
  | OVal (VDict d) => l <- alloc d ;; config_dict l preserve
  | OVal _ => ret tt
  end.

(** *** [config_file] *)
Definition config_file (filename : option string) : M val :=
  match filename with
  | Some filename =>
      fs <- gets files ;;
      match fs !! filename with
      | Some contents => lift (json_load tcex contents)
      | None =>
          emit (Log Error ("Could not load configuration file " +:+ dquote
                           +:+ filename +:+ dquote +:+ ".")) ;;
          ret (VDict ∅)
      end
  | None => ret (VDict ∅)
  end.

(** *** [update_params] *)

(** One turn of the loop of [update_params]: the value stored for
    [arg]. *)
Definition update_param (arg : string) (value : val) : exn + val :=
  let param_data := default ∅ (ij_params_dict tcex !! arg) in
  match py_lower (default (VStr "") (param_data !! "type")) with
  | inl e => inl e
  | inr param_type =>
      let param_allow_multiple :=
        utils_to_bool tcex (default (VBool false) (param_data !! "allowMultiple")) in
      if String.eqb param_type "multichoice" || param_allow_multiple then
        match value with
        | VDict _ => inr value
        | _ => py_split value (ij_list_delimiter tcex)
        end
      else if String.eqb param_type "boolean" then
        inr (VBool (utils_to_bool tcex value))
      else if bool_decide (arg ∈ tc_bool_args) then
        inr (VBool (utils_to_bool tcex value))
      else inr value
  end.

Definition update_params_loop (items : list (string * val))
    : exn + gmap string val :=
  foldl (λ acc item,
           match acc with
           | inl e => inl e
           | inr updated_params =>
               match update_param item.1 item.2 with
               | inl e => inl e
               | inr value => inr (<[item.1 := value]> updated_params)
               end
           end)
        (inr ∅) items.

Definition update_params (params : val) : exn + gmap string val :=
  match params with
  | VDict d => update_params_loop (map_to_list d)
  | _ => inl AttributeError
  end.

(** *** [_get_secure_params] *)

Definition secure_params_error (r : response) : exn :=
  let err := if String.eqb (text r) "" then fmt_reason (reason r) else text r in
  RuntimeError ("Error retrieving secure params from API (" +:+ err +:+ ").").

(** The exceptions the [except] clause names. *)
Definition caught (e : exn) : bool :=
  match e with
  | AttributeError | KeyError | TypeError | ValueError => true
  | _ => false
  end.

Definition _get_secure_params : M val :=
  emit (Log Info "Loading secure params.") ;;
  emit (SessionGet "/internal/job/execution/parameters") ;;
  let r := session_get tcex "/internal/job/execution/parameters" in
  if negb (ok r) then raise (secure_params_error r)
  else
    match and_then (json r) (λ body, subscript body "inputs") with
    | inr secure_params => ret secure_params
    | inl e => if caught e then raise (secure_params_error r) else raise e
    end.

(** *** [_load_aot_params], [_load_secure_params] *)

Definition _load_aot_params : M unit :=
  emit (Enter "_load_aot_params") ;;
  ns <- gets _default_args ;;
  tc_aot_enabled <- getattr ns "tc_aot_enabled" ;;
  when (truthy tc_aot_enabled)
    (emit AotBlpop ;;
     params <- lift (playbook_aot_blpop tcex) ;;
     updated_params <- lift (update_params params) ;;
     config (OVal (VDict updated_params)) true).

Definition _load_secure_params : M unit :=
  emit (Enter "_load_secure_params") ;;
  ns <- gets _default_args ;;
  tc_secure_params <- getattr ns "tc_secure_params" ;;
  when (truthy tc_secure_params)
    (params <- _get_secure_params ;;
     updated_params <- lift (update_params params) ;;
     config (OVal (VDict updated_params)) true).

(** *** [_results_tc_args] *)

(** The value a line of [results.tc] gives. *)
Definition result_value (value : string) : val :=
  if String.eqb value "true" then VBool true
  else if String.eqb value "false" then VBool false
  else if String.eqb value "" then VNone
  else VStr value.

Definition _results_tc_args : M unit :=
  ns <- gets _default_args ;;
  tc_out_path <- getattr ns "tc_out_path" ;;
  result_file <-
    match tc_out_path with
    | VStr path =>
        writable <- lift (os_access_w tcex path) ;;
        ret (if writable : bool then path +:+ "/results.tc" else "results.tc")
    | _ => raise TypeError
    end ;;
  fs <- gets files ;;
  results <-
    match fs !! result_file with
    | Some contents =>
        modify (set_files (delete result_file)) ;;
        ret (PyStr.split_scan line_break "" (PyStr.strip contents) 0)
    | None => ret []
    end ;;
  for_each results (λ line,
    if String.eqb line "" || negb (PyStr.contains " = " line) then ret tt
    else
      match PyStr.split_scan " = " "" line 0 with
      | [key; value] => setattr ns key (result_value value)
      | _ => raise ValueError
      end).

(** *** [args] *)

(** [self.parser.parse_known_args(namespace=self._default_args)]: the
    namespace object is filled in place and handed back; the unknown
    arguments are kept. *)
Definition parse_known_args : M unit :=
  ns <- gets _default_args ;;
  d <- read_dict ns ;;
  p <- gets self_parser ;;
  sys_argv <- gets argv ;;
  modify (set_heap (<[ns := (p sys_argv d).2]>)) ;;
  unknown <- lift (p sys_argv d).1 ;;
  modify (set_unknown_args unknown).

Definition unknown_args : M unit :=
  us <- gets _unknown_args ;;
  for_each us (λ u, emit (Log Warning ("Unsupported arg found (" +:+ u +:+ ")."))).


(** [l[i]] on a list *)
Definition item (v : val) (i : nat) : exn + val :=
  match v with
  | VList l => match l !! i with Some x => inr x | None => inl IndexError end
  | _ => inl TypeError
  end.

Definition args (parse : bool) : M loc :=
  parsed <- gets _parsed ;;
  when (negb parsed || parse)
    (parse_known_args ;;
     ns <- gets _default_args ;;
     config (ODict ns) false ;;
     tc_svc_client_topic <- getattr ns "tc_svc_client_topic" ;;
     when (negb (is_none tc_svc_client_topic))
       (parts <- lift (py_split tc_svc_client_topic "-") ;;
        service_id <- lift (item parts 2) ;;
        setattr ns "service_id" service_id) ;;
     modify (set_parsed true) ;;
     unknown_args) ;;
  gets _default_args.

Definition default_args : M loc := gets _default_args.

Definition params : M loc := args false ;; gets _default_args.

(** *** [resolved_args] *)

Definition resolved_args (parse : bool) : M loc :=
  parsed_resolved <- gets _parsed_resolved ;;
  when (negb parsed_resolved || parse)
    (args false ;;
     fresh_ns <- alloc ∅ ;;
     modify (set_default_args_resolved fresh_ns) ;;
     ns <- gets _default_args ;;
     d <- read_dict ns ;;
     for_each (keys d) (λ arg,
       arg_val <- getattr ns arg ;;
       arg_val <-
         (if bool_decide (arg ∈ tc_reserved_args) then ret arg_val
          else match arg_val with
               | VStr s => lift (playbook_read tcex s)
               | _ => ret arg_val
               end) ;;
       resolved <- gets _default_args_resolved ;;
       setattr resolved arg arg_val) ;;
     modify (set_parsed_resolved true)) ;;
  gets _default_args_resolved.

Definition resolved_params : M loc := gets _default_args_resolved.

(** *** [update_logging] *)

(** [self.tcex.default_args.tc_log_level] *)
Definition tcex_log_level : M val :=
  tns <- gets tcex_default_args ;;
  match tns with
  | Some l => getattr l "tc_log_level"
  | None => raise AttributeError
  end.

Definition update_logging : M unit :=
  ns <- gets _default_args ;;
  tc_log_level <- getattr ns "tc_log_level" ;;
  when (is_none tc_log_level)
    (logging <- getattr ns "logging" ;;
     setattr ns "tc_log_level" logging) ;;
  emit (Logger "log_info" []) ;;
  tc_token <- getattr ns "tc_token" ;;
  (if is_none tc_token then ret tt
   else
     tc_log_to_api <- getattr ns "tc_log_to_api" ;;
     when (truthy tc_log_to_api)
       (lvl <- tcex_log_level ;;
        emit (Logger "add_api_handler" [lvl]))) ;;
  tc_log_file <- getattr ns "tc_log_file" ;;
  tc_log_path <- getattr ns "tc_log_path" ;;
  tc_log_backup_count <- getattr ns "tc_log_backup_count" ;;
  tc_log_max_bytes <- getattr ns "tc_log_max_bytes" ;;
  lvl <- tcex_log_level ;;
  emit (Logger "add_rotating_file_handler"
          [VStr "rfh"; tc_log_file; tc_log_path; tc_log_backup_count;
           tc_log_max_bytes; lvl]) ;;
  emit (Logger "replay_cached_events" [VStr "cache"]).

(** *** [__init__] *)

(** The constructor up to and including [_results_tc_args]: what comes
    before the registration of the token. *)
Definition init_until_results_tc_args (config : loc)
    (config_file_name : option string) : M unit :=
  modify (set_parsed false) ;;
  modify (set_parsed_resolved false) ;;
  modify (set_self_parser (TcArgumentParser tcex)) ;;
  config_file_data <- config_file config_file_name ;;
  items <- lift (match config_file_data with
                 | VDict d => inr d
                 | v => update_items tcex v
                 end) ;;
  dict_update config items ;;
  ns <- alloc ∅ ;;
  modify (set_default_args ns) ;;
  resolved <- alloc ∅ ;;
  modify (set_default_args_resolved resolved) ;;
  c <- read_dict config ;;
  dict_update ns c ;;
  parse_known_args ;;
  ns <- gets _default_args ;;
  modify (set_tcex_default_args ns) ;;
  _results_tc_args.

(** The constructor up to and including [_load_aot_params]. *)
Definition init_until_aot_params (config : loc) (config_file_name : option string)
    : M unit :=
  modify (set_parsed false) ;;
  modify (set_parsed_resolved false) ;;
  modify (set_self_parser (TcArgumentParser tcex)) ;;
  config_file_data <- config_file config_file_name ;;
  items <- lift (match config_file_data with
                 | VDict d => inr d
                 | v => update_items tcex v
                 end) ;;
  dict_update config items ;;
  ns <- alloc ∅ ;;
  modify (set_default_args ns) ;;
  resolved <- alloc ∅ ;;
  modify (set_default_args_resolved resolved) ;;
  c <- read_dict config ;;
  dict_update ns c ;;
  parse_known_args ;;
  ns <- gets _default_args ;;
  modify (set_tcex_default_args ns) ;;
  _results_tc_args ;;
  register_token ;;
  _load_aot_params.

Definition __init__ (config : loc) (config_file_name : option string) : M unit :=
  init_until_aot_params config config_file_name ;;
  _load_secure_params ;;
  ns <- gets _default_args ;;
  modify (set_parser_namespace ns) ;;
  update_logging.

End Methods.
End Inputs.

(** ** Concrete collaborators and states for the examples *)

Module Fixtures.
Import Inputs.

(** Modelled from the spec: [tcex.utils.to_bool] is not among the sources.
    The string forms of true and false are told apart without regard to
    case, any other string gives [False], and a boolean is kept. *)
Definition to_bool (v : val) : bool :=
  match v with
  | VBool b => b
  | VStr s => String.eqb (PyStr.lower s) "true"
  | _ => false
  end.

(** The defaults a parser that declares the framework's flags leaves in
    the namespace when none of them is on the command line. *)
Definition flag_defaults : gmap string val :=
  {[ "tc_token" := VNone; "tc_token_expires" := VNone;
     "tc_aot_enabled" := VBool false; "tc_secure_params" := VBool false;
     "tc_out_path" := VStr "out"; "tc_svc_client_topic" := VNone;
     "tc_log_level" := VStr "info"; "tc_log_to_api" := VBool false;
     "tc_log_file" := VStr "app.log"; "tc_log_path" := VStr "log";
     "tc_log_backup_count" := VInt 5; "tc_log_max_bytes" := VInt 10485760 ]}.

(** Such a parser: what the namespace holds already is kept. *)
Definition default_parser : parser := λ _ ns, (inr [], ns ∪ flag_defaults).

(** A decoder that knows the empty object and rejects any other text. *)
Definition decode_empty_object (contents : string) : exn + val :=
  if String.eqb contents "{}" then inr (VDict ∅) else inl ValueError.

Definition make_tcex (params_dict : gmap string (gmap string val))
    (aot : exn + val) (r : response) : TcEx :=
  {| ij_params_dict := params_dict;
     ij_list_delimiter := ",";
     utils_to_bool := to_bool;
     playbook_read := λ s, inr (VStr s);
     playbook_aot_blpop := aot;
     session_get := λ _, r;
     TcArgumentParser := default_parser;
     json_load := decode_empty_object;
     os_access_w := λ _, inr false;
     update_items := λ _, inl TypeError |}.

(** Install data declaring [tags] as a MultiChoice parameter and
    [debug_mode] as a Boolean one. *)
Definition install_params : gmap string (gmap string val) :=
  {[ "tags" := {[ "type" := VStr "MultiChoice" ]};
     "debug_mode" := {[ "type" := VStr "Boolean" ]} ]}.

Definition inputs_response (inputs : val) : response :=
  {| ok := true; text := "(body)"; reason := Some "OK";
     json := inr (VDict {[ "inputs" := inputs ]}) |}.

Definition error_response : response :=
  {| ok := false; text := ""; reason := Some "Internal Server Error";
     json := inl ValueError |}.

Definition tcex_plain : TcEx :=
  make_tcex install_params (inr (VDict ∅)) (inputs_response (VDict ∅)).

(** A process with the given command line, files and objects; the
    attributes of the instance are still to be set. *)
Definition process (sys_argv : list string) (fs : gmap string string)
    (h : gmap loc (gmap string val)) : state :=
  {| heap := h; files := fs; argv := sys_argv; trace := [];
     _parsed := false; _parsed_resolved := false;
     _default_args := 0; _default_args_resolved := 0; _unknown_args := [];
     self_parser := default_parser; parser_namespace := None;
     tcex_default_args := None |}.

(** An instance whose namespace is the object at 0. *)
Definition instance (sys_argv : list string) (ns : gmap string val) : state :=
  process sys_argv ∅ {[ 0 := ns ]}.

(** The remote service answers with a server error. *)
Definition tcex_error : TcEx :=
  make_tcex install_params (inr (VDict ∅)) error_response.

(** The remote service answers with a body whose [inputs] member is
    null. *)
Definition tcex_null_inputs : TcEx :=
  make_tcex install_params (inr (VDict ∅)) (inputs_response VNone).

(** A process about to build its instance: the configuration dictionary
    at 0 asks for secure parameters. *)
Definition secure_boot : state :=
  process ["app.py"] ∅ {[ 0 := {[ "tc_secure_params" := VBool true ]} ]}.

(** A process about to build its instance: the configuration dictionary
    at 0 carries a token and enables both loaders. *)
Definition token_boot : state :=
  process ["app.py"] ∅
    {[ 0 := {[ "tc_token" := VStr "abc"; "tc_token_expires" := VStr "1700000000";
               "tc_aot_enabled" := VBool true;
               "tc_secure_params" := VBool true ]} ]}.

(** A process whose configuration file holds a text that is not JSON. *)
Definition broken_file_boot : state :=
  process ["app.py"] {[ "app.json" := "{" ]} {[ 0 := ∅ ]}.

(** An instance after the command line [--owner=Acme] was parsed. *)
Definition owner_with_equals : state :=
  instance ["app.py"; "--owner=Acme"] ({[ "owner" := VStr "Acme" ]} ∪ flag_defaults).

(** An instance after the command line [--owner Acme] was parsed. *)
Definition owner_apart : state :=
  instance ["app.py"; "--owner"; "Acme"] ({[ "owner" := VStr "Acme" ]} ∪ flag_defaults).

(** The same with a dictionary of the caller's at 1. *)
Definition instance_with (sys_argv : list string) (ns data : gmap string val)
    : state :=
  process sys_argv ∅ {[ 0 := ns; 1 := data ]}.

End Fixtures.

(** ** The variable grammar and the indirection forms, as the
    specification words them *)

Module Grammar.
Import PyStr ValidationTemplates.

(** The array and scalar kinds. *)
Definition keyword_types : list string :=
  [ "StringArray"; "BinaryArray"; "KeyValueArray"; "TCEntityArray";
    "TCEnhancedEntityArray"; "String"; "Binary"; "KeyValue"; "TCEntity";
    "TCEnhancedEntity" ].

(** What a custom type name must not start with. *)
Definition reserved_prefixes : list string :=
  [ "String"; "Binary"; "KeyValue"; "TCEntity"; "TCEnhancedEntity" ].

(** A non-empty string of characters of one class. *)
Definition made_of (cls : ascii → bool) (s : string) : Prop :=
  s ≠ "" ∧ all_chars cls s = true.

Definition custom_type (ty : string) : Prop :=
  made_of type_char ty ∧ ∀ p, p ∈ reserved_prefixes → strip_prefix p ty = None.

Definition type_ok (ty : string) : Prop :=
  ty ∈ keyword_types ∨ custom_type ty.

(** The text of a variable. *)
Definition variable (ns id name ty : string) : string :=
  "#" +:+ ns +:+ ":" +:+ id +:+ ":" +:+ name +:+ "!" +:+ ty.

(** [v] is the variable of namespace [ns], numeric id [id], dotted name
    [name] and type [ty]. *)
Definition accepts (v ns id name ty : string) : Prop :=
  v = variable ns id name ty
  ∧ made_of is_alpha ns ∧ made_of is_digit id ∧ made_of name_char name
  ∧ type_ok ty.

Definition in_grammar (v : string) : Prop :=
  ∃ ns id name ty, accepts v ns id name ty.

(** The method name of the specification. *)
Definition method_name (name ty : string) : string :=
  lower (replace "." "_" name) +:+ "_" +:+ lower ty.

(** [value] is [prefix] followed by [key], where [key] is what the group
    of [.] can capture and [$] lets a final line break pass. *)
Definition env_form (prefix key value : string) : Prop :=
  all_chars TestCase.dot key = true
  ∧ (value = prefix +:+ key ∨ value = prefix +:+ key +:+ String newline "").

End Grammar.

(** ** Relations between the state before and after a computation *)

Module Effects.

(** Whatever the outcome of [m], the states before and after it are
    related by [R]. *)
Definition preserves {A} (R : relation state) (m : M A) : Prop :=
  ∀ s, R s (m s).2.

(** The loaders: the entries of the two loading methods and the calls
    they make to the queue and to the remote service. *)
Definition loader (e : event) : bool :=
  match e with
  | AotBlpop | SessionGet _ => true
  | Enter method =>
      String.eqb method "_load_aot_params"
      || String.eqb method "_load_secure_params"
  | _ => false
  end.

Definition no_loader (evs : list event) : Prop :=
  Forall (λ e, loader e = false) evs.

(** Events were only added. *)
Definition trace_grows : relation state :=
  λ s s', ∃ evs : list event, trace s' = trace s ++ evs.

(** Events were only added, none of them of a loader. *)
Definition trace_quiet : relation state :=
  λ s s', ∃ evs : list event, trace s' = trace s ++ evs ∧ no_loader evs.

(** [register_token] was entered before any loader event. *)
Definition registered (evs : list event) : Prop :=
  ∃ before after : list event,
    evs = before ++ Enter "register_token" :: after ∧ no_loader before.

(** [m] runs [register_token] before any loader: its trace shows the
    registration first, or [m] raised before it got there and no loader
    was seen. *)
Definition reaches_registration {A} (m : M A) : Prop :=
  ∀ s, ∃ evs : list event,
    trace (m s).2 = trace s ++ evs
    ∧ (registered evs ∨ (no_loader evs ∧ ∃ e, (m s).1 = inl e)).

(** In [evs], every loader event comes after an entry of
    [register_token]. *)
Definition registration_first (evs : list event) : Prop :=
  ∀ (pre : list event) (ev : event) (post : list event),
    evs = pre ++ ev :: post → loader ev = true →
    Enter "register_token" ∈ pre.

(** In [evs], the token was registered before any loader event: events
    none of which is a loader's, then the entry of [register_token] and
    the registration of [token] with [expires], then the rest. *)
Definition token_registered_first (token expires : val) (evs : list event) : Prop :=
  ∃ before after : list event,
    evs = before ++ Enter "register_token"
            :: TokenRegister "MainThread" token expires :: after
    ∧ no_loader before.

(** The store is as it was. *)
Definition same_heap : relation state :=
  λ s s', heap s' = heap s.

(** The body of the response cannot be read as an object with an
    [inputs] member: decoding raises one of the exceptions the [except]
    clause names, or the decoded value is no such object. *)
Definition lacks_inputs (r : response) : Prop :=
  (∃ e, json r = inl e ∧ Inputs.caught e = true)
  ∨ (∃ body, json r = inr body ∧ ∀ d, body = VDict d → d !! "inputs" = None).

(** The value the namespace holds for [key]. *)
Definition arg_value (s : state) (key : string) : option val :=
  heap s !! _default_args s ≫= (λ d, d !! key).

(** What is passed to [config] is an object of the store other than the
    namespace, or a value. *)
Definition passed (s : state) (c : pyobj) : Prop :=
  match c with
  | ODict l => l ≠ _default_args s ∧ is_Some (heap s !! l)
  | OVal _ => True
  end.

(** The install data make [arg] a parameter of several values: its type
    is MultiChoice or it allows multiple values. *)
Definition several_values (tcex : TcEx) (arg : string) : Prop :=
  let param_data := default ∅ (ij_params_dict tcex !! arg) in
  ∃ param_type,
    py_lower (default (VStr "") (param_data !! "type")) = inr param_type
    ∧ (param_type = "multichoice"
       ∨ utils_to_bool tcex (default (VBool false) (param_data !! "allowMultiple"))
         = true).

(** The flag [_parsed] is as it was. *)
Definition same_parsed : relation state :=
  λ s s', _parsed s' = _parsed s.

(** The namespace is the same object, the command line is the same and
    no object was dropped from the store. *)
Definition same_namespace : relation state :=
  λ s s', _default_args s' = _default_args s
          ∧ argv s' = argv s
          ∧ dom (heap s) ⊆ dom (heap s').

(** The keys of [d] without those of [ks] that are flags of the command
    line [sys_argv]: what the loop of [config] leaves. *)
Definition without_flags (sys_argv : list string) (ks : list string)
    (d : gmap string val) : gmap string val :=
  foldl (λ d key,
           if bool_decide ("--" +:+ key ∈ sys_argv) then delete key d else d)
        d ks.

End Effects.

(** ** More of the [Inputs] class: what a merge is given, what resolution
    gives, and two more relations between states *)

Module InputsSpec.
Import Inputs Effects.

(** The dictionary [config] merges when it is passed [c]. *)
Definition passed_data (s : state) (c : pyobj) : option (gmap string val) :=
  match c with
  | ODict l => heap s !! l
  | OVal (VDict d) => Some d
  | OVal _ => None
  end.

(** The value of [key] after a merge of [d] into a namespace holding
    [d0]. *)
Definition merged_value (sys_argv : list string) (preserve : bool)
    (d d0 : gmap string val) (key : string) : option val :=
  if preserve && bool_decide ("--" +:+ key ∈ sys_argv) then d0 !! key
  else match d !! key with Some v => Some v | None => d0 !! key end.

(** One turn of the loop of [update_params] on the dictionary built so
    far, or on the exception raised. *)
Definition update_params_step (tcex : TcEx) (acc : exn + gmap string val)
    (item : string * val) : exn + gmap string val :=
  match acc with
  | inl e => inl e
  | inr updated_params =>
      match update_param tcex item.1 item.2 with
      | inl e => inl e
      | inr value => inr (<[item.1 := value]> updated_params)
      end
  end.


(** A request to the remote service. *)
Definition request (e : event) : bool :=
  match e with
  | SessionGet _ => true
  | _ => false
  end.

(** Events were only added, none of them a request. *)
Definition trace_offline : relation state :=
  λ s s', ∃ evs : list event,
    trace s' = trace s ++ evs ∧ Forall (λ e, request e = false) evs.

(** The files are as they were. *)
Definition same_files : relation state :=
  λ s s', files s' = files s.

(** The name of the results file, from the answer of [os.access]. *)
Definition results_file (path : string) (writable : bool) : string :=
  if writable then path +:+ "/results.tc" else "results.tc".

(** A string without the character [c]. *)
Definition no_char (c : ascii) (s : string) : bool :=
  PyStr.all_chars (λ x, negb (Ascii.eqb x c)) s.

(** *** More collaborators and states for the examples *)

(** The parameters the queue and the remote service hand over. *)
Definition loaded_params : gmap string val :=
  {[ "owner" := VStr "Beta"; "tags" := VStr "red,green" ]}.

(** The same after coercion: [tags] is declared a MultiChoice. *)
Definition coerced_params : gmap string val :=
  {[ "owner" := VStr "Beta"; "tags" := VList [VStr "red"; VStr "green"] ]}.

(** The queue holds [loaded_params]. *)
Definition tcex_queue : TcEx :=
  Fixtures.make_tcex Fixtures.install_params (inr (VDict loaded_params))
    (Fixtures.inputs_response (VDict ∅)).

(** The remote service answers with [loaded_params]. *)
Definition tcex_secure : TcEx :=
  Fixtures.make_tcex Fixtures.install_params (inr (VDict ∅))
    (Fixtures.inputs_response (VDict loaded_params)).

(** An instance after the command line [--owner Acme] was parsed, with
    both loaders enabled. *)
Definition loaders_enabled : gmap string val :=
  {[ "owner" := VStr "Acme"; "tc_aot_enabled" := VBool true;
     "tc_secure_params" := VBool true ]} ∪ Fixtures.flag_defaults.

Definition owner_with_loaders : state :=
  Fixtures.instance ["app.py"; "--owner"; "Acme"] loaders_enabled.

(** A process with a results file one of whose lines has the separator
    twice, and another file. *)
Definition results_boot : state :=
  Fixtures.process ["app.py"]
    {[ "results.tc" := "owner = Acme = Beta"; "notes.txt" := "kept" ]}
    {[ 0 := Fixtures.flag_defaults ]}.

End InputsSpec.

(** ** [tcex/testing/test_case.py]: the names a test case goes by *)

Module TestCaseData.
Import PyStr Re.

(** [s.startswith(p)] *)
Definition startswith (p s : string) : bool :=
  match strip_prefix p s with
  | Some _ => true
  | None => false
  end.

(** [s.endswith(suffix)] *)
Fixpoint endswith (suffix s : string) : bool :=
  String.eqb suffix s
  || match s with
     | EmptyString => false
     | String _ s' => endswith suffix s'
     end.

(** [s.split(sep)] *)
Definition str_split (sep s : string) : exn + list string :=
  match split sep s with
  | Some l => inr l
  | None => inl ValueError
  end.

(** [l[i]] for an index from the front, and [l[-1]] *)
Definition at_index {A} (l : list A) (i : nat) : exn + A :=
  match l !! i with
  | Some x => inr x
  | None => inl IndexError
  end.

Definition at_last {A} (l : list A) : exn + A :=
  match last l with
  | Some x => inr x
  | None => inl IndexError
  end.

(** [os.getenv(name)] where a method of [str] is called on the result:
    [None] has none. *)
Definition getenv_str (environ : gmap string string) (name : string) : exn + string :=
  match environ !! name with
  | Some v => inr v
  | None => inl AttributeError
  end.

Definition _convert_variable_name (variable_name : string) : string :=
  let variable_name :=
    if negb (startswith "${tcenv." variable_name)
    then "${tcenv." +:+ variable_name
    else variable_name in
  let variable_name :=
    if negb (endswith "}" variable_name)
    then variable_name +:+ "}"
    else variable_name in
  variable_name.

(** [self._tc_output_variables[...] = variable_value] *)
Definition add_tc_output_variable (_tc_output_variables : gmap string val)
    (variable_name : string) (variable_value : val) : gmap string val :=
  <[_convert_variable_name variable_name := variable_value]> _tc_output_variables.

Definition test_case_data (environ : gmap string string) : exn + list string :=
  and_then (getenv_str environ "PYTEST_CURRENT_TEST") (λ current,
  and_then (str_split " " current) (λ parts,
  and_then (at_index parts 0) (λ test, str_split "::" test))).

Definition test_case_feature (environ : gmap string string) : exn + string :=
  and_then (test_case_data environ) (λ data,
  and_then (at_index data 0) (λ path,
  and_then (str_split "/" path) (λ parts,
  and_then (at_index parts 1) (λ feature,
  inr (replace "/" "-" feature))))).

Definition test_case_name (environ : gmap string string) : exn + string :=
  and_then (test_case_data environ) (λ data,
  and_then (at_last data) (λ name,
  inr (replace "]" "" (replace "[" "-" (replace "/" "-" name))))).

(** [[a-zA-Z0-9_]] *)
Definition word_char (c : ascii) : bool :=
  is_alpha c || is_digit c || Ascii.eqb c "_".

(** [name_pattern]: start of text, [test_], word characters, an opening
    bracket, one group of at least one [.], a closing bracket, end of
    text. *)
Definition name_pattern : regex :=
  Seq Bol (Seq (Lit "test_") (Seq (Plus word_char) (Seq (Lit "[")
  (Seq (Group 1 (Plus TestCase.dot)) (Seq (Lit "]") Eol))))).

(** The body of the [try]: [re.search] gives [None] when nothing matches,
    and [None] has no [group]. *)
Definition profile_name_search (environ : gmap string string) : exn + option string :=
  and_then (test_case_data environ) (λ data,
  and_then (at_last data) (λ name,
  match re_search name_pattern name with
  | Some m => inr (m !! 1)
  | None => inl AttributeError
  end)).

Definition profile_name (environ : gmap string string) : exn + option string :=
  match profile_name_search environ with
  | inl AttributeError => inr None
  | r => r
  end.

(** The id of a test as pytest writes it to [PYTEST_CURRENT_TEST]: the
    path of the file, the test function with its profile in brackets, and
    the stage after a blank. *)
Definition test_function (name profile : string) : string :=
  "test_" +:+ name +:+ "[" +:+ profile +:+ "]".

Definition current_test (path name profile stage : string) : string :=
  path +:+ "::" +:+ test_function name profile +:+ " " +:+ stage.

(** A string with neither a blank nor a colon, and one that has no slash
    either. *)
Definition unbroken (s : string) : bool :=
  InputsSpec.no_char " " s && InputsSpec.no_char ":" s.

Definition plain (s : string) : bool :=
  unbroken s && InputsSpec.no_char "/" s.

(** The environment of a test of the profile [basic/one] of the feature
    [feature_1], in the stage of the call. *)
Definition pytest_environ : gmap string string :=
  {[ "PYTEST_CURRENT_TEST" :=
       "tests/feature_1/test_profiles.py::test_profiles[basic/one] (call)" ]}.

End TestCaseData.

(** ** [tcex/bin/test.py]: output variables and the test file *)

Module TestBin.
Import PyStr ValidationTemplates TestCaseData.

(** [str(v)] as [format] prints a member of a JSON object that is a
    string when it is there. *)
Definition fmt_member (v : option string) : string :=
  match v with
  | Some s => s
  | None => "None"
  end.

(** The variable one turn of the loop of [output_variables] appends. *)
Definition output_variable (runtime_level : val) (p : gmap string string)
    : exn + string :=
  and_then (py_lower runtime_level) (λ level,
    let var_type :=
      if bool_decide (level ∈ ["triggerservice"; "webhooktriggerservice"])
      then "Trigger" else "App" in
    inr ("#" +:+ var_type +:+ ":" +:+ "9876" +:+ ":" +:+ fmt_member (p !! "name")
         +:+ "!" +:+ fmt_member (p !! "type"))).

(** The loop: the list is appended to in place, so that what was
    appended stays when a turn raises. *)
Fixpoint output_variables_loop (runtime_level : val) (ps : list (gmap string string))
    (_output_variables : list string) : (exn + unit) * list string :=
  match ps with
  | [] => (inr tt, _output_variables)
  | p :: ps' =>
      match output_variable runtime_level p with
      | inl e => (inl e, _output_variables)
      | inr v => output_variables_loop runtime_level ps' (_output_variables ++ [v])
      end
  end.

(** [output_variables]: the result and the new [self._output_variables];
    [outputs] is [self.ij.playbook.get('outputVariables')]. *)
Definition output_variables (runtime_level : val)
    (outputs : option (list (gmap string string)))
    (_output_variables : option (list string))
    : (exn + list string) * option (list string) :=
  match _output_variables with
  | Some l => (inr l, Some l)
  | None =>
      let r := output_variables_loop runtime_level (default [] outputs) [] in
      (match r.1 with inl e => inl e | inr _ => inr r.2 end, Some r.2)
  end.

(** An entry of [output_data]: the method and the variable. *)
Definition entry : Type := option string * string.

(** [a < b] on the keys: [None] is not ordered. *)
Definition key_lt (a b : option string) : exn + bool :=
  match a, b with
  | Some x, Some y => inr (String.ltb x y)
  | _, _ => inl TypeError
  end.

(** [sorted(l, key=lambda i: i['method'])]: a stable sort that compares
    with [<] only; every item of a list of two or more is compared. *)
Fixpoint insert_by_method (x : entry) (l : list entry) : exn + list entry :=
  match l with
  | [] => inr [x]
  | y :: l' =>
      and_then (key_lt y.1 x.1) (λ before : bool,
        if before then and_then (insert_by_method x l') (λ r, inr (y :: r))
        else inr (x :: l))
  end.

Fixpoint sorted_by_method (l : list entry) : exn + list entry :=
  match l with
  | [] => inr []
  | x :: l' => and_then (sorted_by_method l') (insert_by_method x)
  end.

Fixpoint output_entries (output_variables : list string) : exn + list entry :=
  match output_variables with
  | [] => inr []
  | ov :: l =>
      and_then (_method_name (Some ov)) (λ method,
      and_then (output_entries l) (λ rest, inr ((method, ov) :: rest)))
  end.

Definition output_data (output_variables : list string) : exn + list entry :=
  and_then (output_entries output_variables) sorted_by_method.

(** [os.path.join] of [posixpath] *)
Definition path_join2 (path b : string) : string :=
  if startswith "/" b then b
  else if String.eqb path "" || endswith "/" path then path +:+ b
  else path +:+ "/" +:+ b.

Definition path_join (a : string) (p : list string) : string :=
  foldl path_join2 a p.

(** [test_file]: the result and the new [self.args.file]. *)
Definition test_file (base_dir feature : string) (file : option string)
    : option string * option string :=
  match file with
  | Some f =>
      if String.eqb f "" then (None, file)
      else
        let f := if negb (startswith "test_" f) then "test_" +:+ f else f in
        let f := if negb (endswith ".py" f) then f +:+ ".py" else f in
        (Some (path_join base_dir [feature; f]), Some f)
  | None => (None, file)
  end.

(** *** What the properties of [output_variables] and [output_data] say *)

(** An output of the install data with a name and a type the grammar of
    variables takes. *)
Definition declared (p : gmap string string) (name ty : string) : Prop :=
  p !! "name" = Some name ∧ p !! "type" = Some ty
  ∧ Grammar.made_of name_char name ∧ Grammar.type_ok ty.

(** What a variable of the outputs is: the variable of a declared output,
    with the method name of its name and type. *)
Definition variable_of (p : gmap string string) (v : string) : Prop :=
  ∃ name ty ns, declared p name ty ∧ Grammar.accepts v ns "9876" name ty
                ∧ _method_name (Some v) = inr (Some (Grammar.method_name name ty)).

(** The methods of two entries are in order. *)
Definition method_le (a b : entry) : Prop :=
  match a.1, b.1 with
  | Some x, Some y => String.leb x y = true
  | _, _ => False
  end.

(** [a] may stand before the list. *)
Definition leads (a : entry) (l : list entry) : Prop :=
  match l with
  | b :: _ => method_le a b
  | [] => True
  end.

(** Each entry and the next are in order. *)
Fixpoint in_order (l : list entry) : Prop :=
  match l with
  | a :: l' => leads a l' ∧ in_order l'
  | [] => True
  end.

End TestBin.

(** * Properties *)

(** ** Strings and the matcher *)

Module ReFacts.
Import PyStr Re.

#[local] Arguments String.append !_ _ / : simpl nomatch.

Lemma append_nil_r s : s +:+ "" = s.
Proof. induction s as [|c s IH]; simpl; congruence. Qed.

Lemma append_assoc s t u : (s +:+ t) +:+ u = s +:+ t +:+ u.
Proof. induction s as [|c s IH]; simpl; congruence. Qed.

Lemma take_append a rest : take (String.length a) (a +:+ rest) = a.
Proof.
  unfold take. induction a as [|c a IH]; simpl.
  - by destruct rest.
  - congruence.
Qed.

Lemma take_cons n c s : take (S n) (String c s) = String c (take n s).
Proof. done. Qed.

Lemma take_reached pos a rest :
  take (pos + String.length a - pos) (a +:+ rest) = a.
Proof.
  replace (pos + String.length a - pos)%nat with (String.length a) by lia.
  apply take_append.
Qed.

Lemma strip_prefix_append p s : strip_prefix p (p +:+ s) = Some s.
Proof.
  induction p as [|c p IH]; simpl; [done |].
  by rewrite Ascii.eqb_refl.
Qed.

Lemma strip_prefix_Some p s t : strip_prefix p s = Some t → s = p +:+ t.
Proof.
  revert s. induction p as [|c p IH]; intros s; simpl.
  - by intros [= ->].
  - destruct s as [|b s]; [done |].
    destruct (Ascii.eqb c b) eqn:E; [| done].
    apply Ascii.eqb_eq in E as ->. intros H. by rewrite (IH _ H).
Qed.

(** A prefix of a prefix. *)
Lemma strip_prefix_shorter p q s :
  strip_prefix p s = None → strip_prefix (p +:+ q) s = None.
Proof.
  revert s. induction p as [|c p IH]; intros s; simpl; [done |].
  destruct s as [|b s]; [done |].
  destruct (Ascii.eqb c b); [apply IH | done].
Qed.

(** The longest run is tried first: when the continuation takes it, that
    is the result. *)
Lemma greedy_longest cls a rest pos k r :
  all_chars cls a = true → stops cls rest →
  k (pos + String.length a)%nat rest = Some r →
  greedy cls pos (a +:+ rest) k = Some r.
Proof.
  revert pos. induction a as [|c a IH]; intros pos Ha Hrest Hk; simpl in *.
  - rewrite Nat.add_0_r in Hk.
    destruct rest as [|c rest]; simpl in *; [done |]. by rewrite Hrest.
  - apply andb_true_iff in Ha as [-> Ha].
    rewrite (IH (S pos)); [done | done | done |].
    by rewrite <- Nat.add_succ_comm in Hk.
Qed.

(** Whatever the result, it comes from some run of the class. *)
Lemma greedy_inv cls pos s k r :
  greedy cls pos s k = Some r →
  ∃ a rest, s = a +:+ rest ∧ all_chars cls a = true
            ∧ k (pos + String.length a)%nat rest = Some r.
Proof.
  revert pos. induction s as [|c s IH]; intros pos; simpl.
  - intros H. exists "", "". simpl. by rewrite Nat.add_0_r.
  - destruct (cls c) eqn:Hc.
    + destruct (greedy cls (S pos) s k) as [r'|] eqn:Hg.
      * intros [= ->]. destruct (IH _ Hg) as (a & rest & -> & Ha & Hk).
        exists (String c a), rest. simpl. rewrite Hc, Ha.
        by rewrite <- Nat.add_succ_comm.
      * intros H. exists "", (String c s). simpl. by rewrite Nat.add_0_r.
    + intros H. exists "", (String c s). simpl. by rewrite Nat.add_0_r.
Qed.

Lemma run_lit l s pos g k r :
  k (pos + String.length l)%nat s g = Some r →
  run (Lit l) pos (l +:+ s) g k = Some r.
Proof. intros H. simpl. by rewrite strip_prefix_append. Qed.

Lemma run_lit_inv l s pos g k r :
  run (Lit l) pos s g k = Some r →
  ∃ t, s = l +:+ t ∧ k (pos + String.length l)%nat t g = Some r.
Proof.
  simpl. destruct (strip_prefix l s) as [t|] eqn:E; [| done].
  intros H. exists t. split; [by apply strip_prefix_Some | done].
Qed.

Lemma run_group_star n cls a rest pos g k r :
  all_chars cls a = true → stops cls rest →
  k (pos + String.length a)%nat rest (<[n := a]> g) = Some r →
  run (Group n (Star cls)) pos (a +:+ rest) g k = Some r.
Proof.
  intros Ha Hrest Hk. simpl. apply greedy_longest; [done | done |].
  by rewrite take_reached.
Qed.

Lemma run_group_star_inv n cls s pos g k r :
  run (Group n (Star cls)) pos s g k = Some r →
  ∃ a rest, s = a +:+ rest ∧ all_chars cls a = true
            ∧ k (pos + String.length a)%nat rest (<[n := a]> g) = Some r.
Proof.
  simpl. intros H. apply greedy_inv in H as (a & rest & -> & Ha & Hk).
  exists a, rest. by rewrite take_reached in Hk.
Qed.

Lemma run_group_plus n cls a rest pos g k r :
  a ≠ "" → all_chars cls a = true → stops cls rest →
  k (pos + String.length a)%nat rest (<[n := a]> g) = Some r →
  run (Group n (Plus cls)) pos (a +:+ rest) g k = Some r.
Proof.
  intros Hne Ha Hrest Hk. destruct a as [|c a]; [done |]. simpl in *.
  apply andb_true_iff in Ha as [-> Ha].
  apply greedy_longest; [done | done |].
  replace (S pos + String.length a - pos)%nat with (S (String.length a)) by lia.
  simpl. rewrite take_cons, take_append.
  by rewrite <- Nat.add_succ_comm in Hk.
Qed.

Lemma run_group_plus_inv n cls s pos g k r :
  run (Group n (Plus cls)) pos s g k = Some r →
  ∃ a rest, s = a +:+ rest ∧ a ≠ "" ∧ all_chars cls a = true
            ∧ k (pos + String.length a)%nat rest (<[n := a]> g) = Some r.
Proof.
  simpl. destruct s as [|c s]; [done |]. destruct (cls c) eqn:Hc; [| done].
  intros H. apply greedy_inv in H as (a & rest & -> & Ha & Hk).
  exists (String c a), rest. simpl. rewrite Hc, Ha.
  repeat split; [done |].
  replace (S pos + String.length a - pos)%nat with (S (String.length a)) in Hk by lia.
  rewrite take_cons, take_append in Hk.
  by rewrite <- Nat.add_succ_comm.
Qed.

(** [$] then success: the text is over, or a last line break is left. *)
Lemma run_eol_accept pos s g r :
  run Eol pos s g accept = Some r ↔
  (s = "" ∨ s = String newline "") ∧ r = g.
Proof.
  unfold accept. simpl. split.
  - destruct s as [|c [|c' s]]; try done.
    + intros [= ->]. by split; [left |].
    + destruct (Ascii.eqb c newline) eqn:E; [| done].
      apply Ascii.eqb_eq in E as ->. intros [= ->]. by split; [right |].
  - intros [[-> | ->] ->]; done.
Qed.

Lemma run_seq r1 r2 pos s g k :
  run (Seq r1 r2) pos s g k = run r1 pos s g (λ p t g', run r2 p t g' k).
Proof. done. Qed.

Lemma run_group n r' pos s g k :
  run (Group n r') pos s g k
  = run r' pos s g (λ p t g', k p t (<[n := take (p - pos) s]> g')).
Proof. done. Qed.

Lemma run_bol s g k : run Bol 0 s g k = k 0%nat s g.
Proof. done. Qed.

Lemma run_alt_l r1 r2 pos s g k r :
  run r1 pos s g k = Some r → run (Alt r1 r2) pos s g k = Some r.
Proof. intros H. simpl. by rewrite H. Qed.

Lemma run_alt_r r1 r2 pos s g k :
  run r1 pos s g k = None → run (Alt r1 r2) pos s g k = run r2 pos s g k.
Proof. intros H. simpl. by rewrite H. Qed.

Lemma run_alt_inv r1 r2 pos s g k r :
  run (Alt r1 r2) pos s g k = Some r →
  run r1 pos s g k = Some r ∨ run r2 pos s g k = Some r.
Proof. simpl. destruct (run r1 pos s g k); [intros [= ->]; by left | by right]. Qed.

Lemma run_lit_none l s pos g k :
  strip_prefix l s = None → run (Lit l) pos s g k = None.
Proof. intros H. simpl. by rewrite H. Qed.

Lemma run_notahead_lit l s pos g k :
  strip_prefix l s = None → run (NotAhead (Lit l)) pos s g k = k pos s g.
Proof. intros H. simpl. by rewrite H. Qed.

Lemma run_notahead_lit_inv l s pos g k r :
  run (NotAhead (Lit l)) pos s g k = Some r →
  strip_prefix l s = None ∧ k pos s g = Some r.
Proof. simpl. by destruct (strip_prefix l s). Qed.

Lemma run_plus cls a rest pos g k r :
  a ≠ "" → all_chars cls a = true → stops cls rest →
  k (pos + String.length a)%nat rest g = Some r →
  run (Plus cls) pos (a +:+ rest) g k = Some r.
Proof.
  intros Hne Ha Hrest Hk. destruct a as [|c a]; [done |]. simpl in *.
  apply andb_true_iff in Ha as [-> Ha].
  apply greedy_longest; [done | done |].
  by rewrite <- Nat.add_succ_comm in Hk.
Qed.

Lemma run_plus_inv cls s pos g k r :
  run (Plus cls) pos s g k = Some r →
  ∃ a rest, s = a +:+ rest ∧ a ≠ "" ∧ all_chars cls a = true
            ∧ k (pos + String.length a)%nat rest g = Some r.
Proof.
  simpl. destruct s as [|c s]; [done |]. destruct (cls c) eqn:Hc; [| done].
  intros H. apply greedy_inv in H as (a & rest & -> & Ha & Hk).
  exists (String c a), rest. simpl. rewrite Hc, Ha.
  repeat split; [done |]. by rewrite <- Nat.add_succ_comm.
Qed.

Lemma search_from_hit r pos s g :
  run r pos s ∅ accept = Some g → search_from r pos s = Some g.
Proof. intros H. destruct s; simpl; by rewrite H. Qed.

(** A prefix of [a] is a prefix of any text that starts with [a]. *)
Lemma strip_prefix_weaken p a rest :
  strip_prefix p (a +:+ rest) = None → strip_prefix p a = None.
Proof.
  revert a. induction p as [|c p IH]; intros a; simpl; [done |].
  destruct a as [|b a]; simpl; [done |].
  destruct (Ascii.eqb c b); [apply IH | done].
Qed.

Lemma append_nonempty s c : s +:+ String c "" ≠ "".
Proof. by destruct s. Qed.

(** [rstrip] leaves no white space at the end. *)
Lemma rstrip_last s t c : rstrip s = t +:+ String c "" → is_space c = false.
Proof.
  revert t. induction s as [|a s IH]; intros t; simpl.
  - intros H. symmetry in H. by apply append_nonempty in H.
  - destruct (rstrip s) as [|b r] eqn:E.
    + destruct (is_space a) eqn:Ha.
      * intros H. symmetry in H. by apply append_nonempty in H.
      * destruct t as [|a' t]; simpl.
        -- by intros [= <-].
        -- intros [= _ H]. symmetry in H. by apply append_nonempty in H.
    + destruct t as [|a' t]; simpl; [done |].
      intros [= _ H]. by apply (IH t).
Qed.

Lemma strip_last s t c : strip s = t +:+ String c "" → is_space c = false.
Proof. apply rstrip_last. Qed.

(** [rstrip] keeps a string without white space. *)
Lemma rstrip_solid s :
  all_chars (λ c, negb (is_space c)) s = true → rstrip s = s.
Proof.
  induction s as [|a s IH]; simpl; [done |].
  intros [Ha Hs]%andb_true_iff. rewrite (IH Hs).
  destruct s; [| done]. by apply negb_true_iff in Ha as ->.
Qed.

(** [rstrip] keeps what comes before an end that it keeps. *)
Lemma rstrip_append s t : t ≠ "" → rstrip t = t → rstrip (s +:+ t) = s +:+ t.
Proof.
  intros Hne Ht. induction s as [|a s IH]; simpl; [done |].
  rewrite IH. destruct (s +:+ t) eqn:E; [| done].
  destruct s; simpl in E; [done | discriminate].
Qed.

End ReFacts.

(** ** [resolve_env_args] *)

Module TestCaseFacts.
Import PyStr Re ReFacts TestCase Grammar.

#[local] Arguments String.append !_ _ / : simpl nomatch.

Lemma indirection_match prefix key value :
  env_form prefix key value →
  re_match (indirection prefix) value = Some {[ 1 := key ]}.
Proof.
  intros [Hkey Hvalue]. unfold re_match, indirection.
  assert (∃ tail, value = prefix +:+ key +:+ tail
                  ∧ (tail = "" ∨ tail = String newline "")) as (tail & -> & Htail).
  { destruct Hvalue as [-> | ->].
    - exists "". by rewrite append_nil_r; split; [| left].
    - exists (String newline ""). by split; [| right]. }
  change (run (Lit prefix) 0 (prefix +:+ key +:+ tail) ∅
            (λ p t g, run (Group 1 (Star dot)) p t g
                        (λ p' t' g', run Eol p' t' g' accept))
          = Some {[ 1 := key ]}).
  apply run_lit, run_group_star; [done | |].
  - by destruct Htail as [-> | ->].
  - by apply run_eol_accept.
Qed.

Lemma indirection_match_inv prefix value m :
  re_match (indirection prefix) value = Some m →
  ∃ key, env_form prefix key value ∧ m = {[ 1 := key ]}.
Proof.
  unfold re_match, indirection. intros H.
  change (run (Lit prefix) 0 value ∅
            (λ p t g, run (Group 1 (Star dot)) p t g
                        (λ p' t' g', run Eol p' t' g' accept))
          = Some m) in H.
  apply run_lit_inv in H as (t & -> & H).
  apply run_group_star_inv in H as (key & tail & -> & Hkey & H).
  apply run_eol_accept in H as [Htail ->].
  exists key. split; [| done]. split; [done |].
  destruct Htail as [-> | ->]; [left | right]; [by rewrite append_nil_r | done].
Qed.

Lemma indirection_no_match prefix value :
  (∀ key, ¬ env_form prefix key value) →
  re_match (indirection prefix) value = None.
Proof.
  intros Hno. destruct (re_match (indirection prefix) value) as [m|] eqn:E; [| done].
  apply indirection_match_inv in E as (key & Hform & _). by destruct (Hno key).
Qed.

(** A value with the literal [$envs.] is not taken by the first pattern. *)
Lemma env_var_skips_envs key value :
  env_form "$envs." key value → re_match env_var value = None.
Proof. by intros [_ [-> | ->]]. Qed.

(** C9.  A string the pattern [$env.KEY] or [$envs.KEY] takes (KEY is what
    the group of [.] captures, so it has no line break, and [$] lets one
    final line break pass) is replaced by the environment variable KEY
    when it is set and returned as it is when it is not; a string neither
    pattern takes is returned as it is.  Nothing is raised. *)
Theorem resolve_env_args_spec (environ : gmap string string) (value : string) :
  (∀ key, env_form "$env." key value ∨ env_form "$envs." key value →
          resolve_env_args environ value = inr (default value (environ !! key)))
  ∧ ((∀ key, ¬ env_form "$env." key value ∧ ¬ env_form "$envs." key value) →
     resolve_env_args environ value = inr value).
Proof.
  split.
  - intros key [H | H]; unfold resolve_env_args.
    + change env_var with (indirection "$env.").
      rewrite (indirection_match _ _ _ H).
      unfold getenv_group, getenv. rewrite lookup_singleton_eq.
      by destruct (environ !! key).
    + rewrite (env_var_skips_envs _ _ H).
      change envs_var with (indirection "$envs.").
      rewrite (indirection_match _ _ _ H).
      unfold getenv_group, getenv. rewrite lookup_singleton_eq.
      by destruct (environ !! key).
  - intros Hno. unfold resolve_env_args.
    change env_var with (indirection "$env.").
    change envs_var with (indirection "$envs.").
    rewrite !indirection_no_match; [done | |]; intros key; apply Hno.
Qed.

Lemma resolve_env_args_spec_witness :
  resolve_env_args {[ "API_KEY" := "xyz" ]} "$env.API_KEY" = inr "xyz"
  ∧ resolve_env_args ∅ "$envs.API_KEY" = inr "$envs.API_KEY"
  ∧ resolve_env_args {[ "API_KEY" := "xyz" ]} "env.API_KEY" = inr "env.API_KEY".
Proof.
  split; [| split].
  - etrans.
    + apply (proj1 (resolve_env_args_spec {[ "API_KEY" := "xyz" ]} "$env.API_KEY")
               "API_KEY").
      left. split; [reflexivity | left; reflexivity].
    + reflexivity.
  - etrans.
    + apply (proj1 (resolve_env_args_spec ∅ "$envs.API_KEY") "API_KEY").
      right. split; [reflexivity | left; reflexivity].
    + reflexivity.
  - apply (proj2 (resolve_env_args_spec {[ "API_KEY" := "xyz" ]} "env.API_KEY")).
    intros key. split; intros [_ [H | H]]; discriminate H.
Defined.

End TestCaseFacts.

(** ** [_method_name] and the variable pattern *)

Module ValidationFacts.
Import PyStr Re ReFacts ValidationTemplates Grammar.

Ltac in_list := repeat constructor.

Ltac reached :=
  repeat match goal with
    | |- context [take (?p + ?n - ?p) _] =>
        replace (p + n - p)%nat with n by lia
    | H : context [take (?p + ?n - ?p) _] |- _ =>
        replace (p + n - p)%nat with n in H by lia
    end.

Lemma take_all a : take (String.length a) a = a.
Proof. pose proof (take_append a "") as H. by rewrite append_nil_r in H. Qed.

Lemma run_plus_end cls a pos g k r :
  a ≠ "" → all_chars cls a = true →
  k (pos + String.length a)%nat "" g = Some r →
  run (Plus cls) pos a g k = Some r.
Proof.
  intros Hne Ha Hk. pose proof (run_plus cls a "" pos g k r Hne Ha I Hk) as H.
  by rewrite append_nil_r in H.
Qed.

(** Every keyword starts with a reserved prefix. *)
Lemma keyword_reserved kw :
  kw ∈ keyword_types → ∃ p q, p ∈ reserved_prefixes ∧ kw = p +:+ q.
Proof.
  intros H. unfold keyword_types in H.
  repeat (apply elem_of_cons in H as [-> | H]);
    [ exists "String", "Array" | exists "Binary", "Array"
    | exists "KeyValue", "Array" | exists "TCEntity", "Array"
    | exists "TCEnhancedEntity", "Array" | exists "String", ""
    | exists "Binary", "" | exists "KeyValue", "" | exists "TCEntity", ""
    | exists "TCEnhancedEntity", "" | by apply elem_of_nil in H ];
    (split; [in_list | done]).
Qed.

Lemma custom_skips_keyword ty kw :
  custom_type ty → kw ∈ keyword_types → strip_prefix kw ty = None.
Proof.
  intros [_ H] Hkw. destruct (keyword_reserved kw Hkw) as (p & q & Hp & ->).
  by apply strip_prefix_shorter, H.
Qed.

(** The type group takes a type that ends the text. *)
Lemma type_group_match ty pos g k r :
  type_ok ty →
  k (pos + String.length ty)%nat "" (<[4 := ty]> g) = Some r →
  run (Group 4 variable_type) pos ty g k = Some r.
Proof.
  intros [Hkw | Hc] Hk; rewrite run_group; unfold variable_type.
  - unfold keyword_types in Hkw.
    repeat (apply elem_of_cons in Hkw as [-> | Hkw]);
      [ .. | by apply elem_of_nil in Hkw ];
      simpl in *; reached;
      repeat match goal with
        | |- context [take ?n ?s] =>
            let v := eval compute in (take n s) in change (take n s) with v
        end;
      by rewrite Hk.
  - rewrite !run_alt_r
      by (apply run_lit_none, custom_skips_keyword; [done | in_list]).
    destruct Hc as [[Hne Hty] Hp].
    rewrite run_seq, run_notahead_lit by (apply Hp; in_list).
    rewrite run_seq, run_notahead_lit by (apply Hp; in_list).
    rewrite run_seq, run_notahead_lit by (apply Hp; in_list).
    rewrite run_seq, run_notahead_lit by (apply Hp; in_list).
    rewrite run_seq, run_notahead_lit by (apply Hp; in_list).
    apply run_plus_end; [done | done |].
    reached. by rewrite take_all.
Qed.

Lemma type_group_inv s pos g k r :
  run (Group 4 variable_type) pos s g k = Some r →
  ∃ ty rest, s = ty +:+ rest ∧ type_ok ty
             ∧ k (pos + String.length ty)%nat rest (<[4 := ty]> g) = Some r.
Proof.
  rewrite run_group. unfold variable_type. intros H.
  repeat (apply run_alt_inv in H as [H | H];
          [ apply run_lit_inv in H as (t & -> & H); rewrite take_reached in H;
            eexists _, t; split; [done |]; split; [left; in_list | done] |]).
  rewrite run_seq in H. apply run_notahead_lit_inv in H as [P1 H].
  rewrite run_seq in H. apply run_notahead_lit_inv in H as [P2 H].
  rewrite run_seq in H. apply run_notahead_lit_inv in H as [P3 H].
  rewrite run_seq in H. apply run_notahead_lit_inv in H as [P4 H].
  rewrite run_seq in H. apply run_notahead_lit_inv in H as [P5 H].
  apply run_plus_inv in H as (a & rest & -> & Hne & Ha & H).
  rewrite take_reached in H.
  exists a, rest. split; [done |]. split; [| done].
  right. split; [done |]. intros p Hp. unfold reserved_prefixes in Hp.
  repeat (apply elem_of_cons in Hp as [-> | Hp]);
    [ by eapply strip_prefix_weaken .. | by apply elem_of_nil in Hp ].
Qed.

#[local] Arguments String.append !_ _ / : simpl nomatch.

(** The pattern takes the text of a variable, whatever follows the
    pattern accepting at the end of the text. *)
Lemma variable_pattern_match ns id name ty pos k r :
  made_of is_alpha ns → made_of is_digit id → made_of name_char name →
  type_ok ty →
  (∀ p, k p "" (<[4 := ty]> (<[3 := name]> (<[2 := id]> (<[1 := ns]> ∅))))
        = Some r) →
  run _variable_pattern pos (variable ns id name ty) ∅ k = Some r.
Proof.
  intros [? ?] [? ?] [? ?] Hty Hk. unfold _variable_pattern, variable.
  rewrite run_seq. apply run_lit.
  rewrite run_seq. apply run_group_plus; [done | done | done |].
  rewrite run_seq. apply run_lit.
  rewrite run_seq. apply run_group_plus; [done | done | done |].
  rewrite run_seq. apply run_lit.
  rewrite run_seq. apply run_group_plus; [done | done | done |].
  rewrite run_seq. apply run_lit.
  apply type_group_match; [done |]. apply Hk.
Qed.

Lemma variable_pattern_inv v pos k r :
  run _variable_pattern pos v ∅ k = Some r →
  ∃ ns id name ty rest p,
    v = variable ns id name ty +:+ rest
    ∧ made_of is_alpha ns ∧ made_of is_digit id ∧ made_of name_char name
    ∧ type_ok ty
    ∧ k p rest (<[4 := ty]> (<[3 := name]> (<[2 := id]> (<[1 := ns]> ∅)))) = Some r.
Proof.
  unfold _variable_pattern. intros H.
  rewrite run_seq in H. apply run_lit_inv in H as (t0 & -> & H).
  rewrite run_seq in H. apply run_group_plus_inv in H as (ns & t1 & -> & ? & ? & H).
  rewrite run_seq in H. apply run_lit_inv in H as (t2 & -> & H).
  rewrite run_seq in H. apply run_group_plus_inv in H as (id & t3 & -> & ? & ? & H).
  rewrite run_seq in H. apply run_lit_inv in H as (t4 & -> & H).
  rewrite run_seq in H. apply run_group_plus_inv in H as (name & t5 & -> & ? & ? & H).
  rewrite run_seq in H. apply run_lit_inv in H as (t6 & -> & H).
  apply type_group_inv in H as (ty & rest & -> & Hty & H).
  exists ns, id, name, ty, rest. eexists. split; [| done].
  unfold variable. by rewrite !append_assoc.
Qed.

Lemma variable_match_accepts v ns id name ty :
  accepts v ns id name ty →
  ∃ m, re_match _variable_match v = Some m.
Proof.
  intros (-> & Hns & Hid & Hname & Hty). eexists.
  unfold re_match, _variable_match. rewrite run_seq, run_bol, run_seq.
  by apply variable_pattern_match.
Qed.

Lemma variable_parse_accepts v ns id name ty :
  accepts v ns id name ty →
  ∃ m, re_search _variable_parse v = Some m
       ∧ m !! 3 = Some name ∧ m !! 4 = Some ty.
Proof.
  intros (-> & Hns & Hid & Hname & Hty).
  exists (<[4 := ty]> (<[3 := name]> (<[2 := id]> (<[1 := ns]> ∅)))).
  split; [| by simplify_map_eq].
  apply search_from_hit. by apply variable_pattern_match.
Qed.

(** What [_variable_match] takes of a stripped string is a variable. *)
Lemma variable_match_inv variable m :
  re_match _variable_match (strip variable) = Some m →
  in_grammar (strip variable).
Proof.
  unfold re_match, _variable_match. rewrite run_seq, run_bol, run_seq.
  intros H.
  apply variable_pattern_inv in H
    as (ns & id & name & ty & rest & p & Hv & Hns & Hid & Hname & Hty & H).
  apply run_eol_accept in H as [[-> | ->] _].
  - rewrite append_nil_r in Hv. by exists ns, id, name, ty.
  - by apply strip_last in Hv.
Qed.

Lemma method_name_accepts variable ns id name ty :
  accepts (strip variable) ns id name ty →
  _method_name (Some variable) = inr (Some (method_name name ty)).
Proof.
  intros H. unfold _method_name.
  destruct (variable_match_accepts _ _ _ _ _ H) as [m ->].
  destruct (variable_parse_accepts _ _ _ _ _ H) as (var & -> & -> & ->).
  done.
Qed.

Lemma type_char_solid c : type_char c = true → negb (is_space c) = true.
Proof. by destruct c as [[] [] [] [] [] [] [] []]. Qed.

Lemma all_chars_impl (p q : ascii → bool) s :
  (∀ c, p c = true → q c = true) → all_chars p s = true → all_chars q s = true.
Proof.
  intros Hpq. induction s as [|c s IH]; simpl; [done |].
  intros [Hc Hs]%andb_true_iff. by rewrite (Hpq c Hc), IH.
Qed.

Lemma type_ok_solid ty : type_ok ty → ty ≠ "" ∧ rstrip ty = ty.
Proof.
  intros [Hkw | [[Hne Hty] _]].
  - unfold keyword_types in Hkw.
    repeat (apply elem_of_cons in Hkw as [-> | Hkw]);
      [ by split .. | by apply elem_of_nil in Hkw ].
  - split; [done |]. apply rstrip_solid.
    by apply (all_chars_impl type_char); [apply type_char_solid |].
Qed.

(** A variable of the grammar has no white space around it. *)
Lemma accepted_unpadded v ns id name ty : accepts v ns id name ty → strip v = v.
Proof.
  intros (-> & _ & _ & _ & Hty). destruct (type_ok_solid ty Hty) as [Hne Hsolid].
  set (front := "#" +:+ ns +:+ ":" +:+ id +:+ ":" +:+ name +:+ "!").
  assert (variable ns id name ty = front +:+ ty) as ->.
  { unfold front, variable. by rewrite !append_assoc. }
  unfold strip. change (lstrip (front +:+ ty)) with (front +:+ ty).
  by apply rstrip_append.
Qed.

(** The method name of a variable of the grammar. *)
Lemma method_name_of_variable v ns id name ty :
  accepts v ns id name ty →
  _method_name (Some v) = inr (Some (method_name name ty)).
Proof.
  intros H. apply (method_name_accepts v ns id).
  by rewrite (accepted_unpadded _ _ _ _ _ H).
Qed.

(** C8, as amended.  The argument is stripped of surrounding white space
    first.  When what is left is a variable of the grammar, the result is
    its dotted name with every [.] turned into [_], in lower case, then
    [_] and the type in lower case; when it is not, the result is [None].
    [None] gives [None].  Nothing is raised. *)
Theorem method_name_of_stripped (variable : string) :
  (∀ ns id name ty,
     accepts (strip variable) ns id name ty →
     _method_name (Some variable) = inr (Some (method_name name ty)))
  ∧ (¬ in_grammar (strip variable) → _method_name (Some variable) = inr None)
  ∧ _method_name None = inr None.
Proof.
  split; [| split; [| done]].
  - apply method_name_accepts.
  - intros Hno. unfold _method_name.
    destruct (re_match _variable_match (strip variable)) as [m|] eqn:E; [| done].
    by apply variable_match_inv in E.
Qed.

Lemma method_name_of_stripped_witness :
  _method_name (Some "  #App:9876:http.content!Binary ") = inr (Some "http_content_binary")
  ∧ _method_name (Some "http.content") = inr None.
Proof.
  split.
  - etrans.
    + apply (proj1 (method_name_of_stripped "  #App:9876:http.content!Binary ")
               "App" "9876" "http.content" "Binary").
      split; [reflexivity |].
      repeat split; try discriminate. left. in_list.
    + reflexivity.
  - apply (proj1 (proj2 (method_name_of_stripped "http.content"))).
    intros (ns & id & name & ty & H & _). discriminate H.
Defined.

(** C8, as first stated, fails: a variable with a blank before it is not
    a string of the grammar, and the pattern alone rejects it, yet it has
    a method name. *)
Lemma method_name_of_padded_variable :
  ¬ in_grammar " #App:9876:http.content!Binary"
  ∧ re_match _variable_match " #App:9876:http.content!Binary" = None
  ∧ _method_name (Some " #App:9876:http.content!Binary")
    = inr (Some "http_content_binary").
Proof.
  split; [| split; reflexivity].
  intros (ns & id & name & ty & H & _). discriminate H.
Qed.

End ValidationFacts.

(** ** The [Inputs] class *)

Module InputsFacts.
Import Inputs Effects.

(** *** Computations step by step *)

Lemma bind_inr {A B} (m : M A) (k : A → M B) s a s' :
  m s = (inr a, s') → bind m k s = k a s'.
Proof. unfold bind. by intros ->. Qed.

Lemma bind_inl {A B} (m : M A) (k : A → M B) s e s' :
  m s = (inl e, s') → bind m k s = (inl e, s').
Proof. unfold bind. by intros ->. Qed.

Lemma bind_inr_inv {A B} (m : M A) (k : A → M B) s b s' :
  bind m k s = (inr b, s') → ∃ a s1, m s = (inr a, s1) ∧ k a s1 = (inr b, s').
Proof.
  unfold bind. destruct (m s) as [[e | a] s1]; [done |]. intros H. by exists a, s1.
Qed.

Lemma bind_assoc {A B C} (m : M A) (k : A → M B) (h : B → M C) s :
  bind (bind m k) h s = bind m (λ a, bind (k a) h) s.
Proof. unfold bind. by destruct (m s) as [[e | a] s1]. Qed.

Lemma bind_ext {A B} (m : M A) (k k' : A → M B) s :
  (∀ a s1, k a s1 = k' a s1) → bind m k s = bind m k' s.
Proof. intros H. unfold bind. destruct (m s) as [[e | a] s1]; [done | apply H]. Qed.

Lemma result_inr {A} (p : (exn + A) * state) a : p.1 = inr a → p = (inr a, p.2).
Proof. destruct p as [r s]. simpl. by intros ->. Defined.

Section Preserves.
Context (R : relation state) `{!PreOrder R}.

Lemma preserves_ret {A} (a : A) : preserves R (ret a).
Proof. by intros s. Qed.

Lemma preserves_raise {A} e : preserves R (@raise A e).
Proof. by intros s. Qed.

Lemma preserves_lift {A} (r : exn + A) : preserves R (lift r).
Proof. by intros s. Qed.

Lemma preserves_gets {A} (f : state → A) : preserves R (gets f).
Proof. by intros s. Qed.

Lemma preserves_getattr ns name : preserves R (getattr ns name).
Proof. intros s. unfold getattr. by destruct (_ ≫= _). Qed.

Lemma preserves_read_dict l : preserves R (read_dict l).
Proof. by intros s. Qed.

Lemma preserves_modify f : (∀ s, R s (f s)) → preserves R (modify f).
Proof. intros H s. apply H. Qed.

Lemma preserves_bind {A B} (m : M A) (k : A → M B) :
  preserves R m → (∀ a, preserves R (k a)) → preserves R (bind m k).
Proof.
  intros Hm Hk s. unfold bind. specialize (Hm s).
  destruct (m s) as [[e | a] s1]; simpl in *; [done |].
  by etrans; [| apply Hk].
Qed.

Lemma preserves_when b m : preserves R m → preserves R (when b m).
Proof. intros H. destruct b; [done | apply preserves_ret]. Qed.

Lemma preserves_for_each {A} (l : list A) body :
  (∀ x, preserves R (body x)) → preserves R (for_each l body).
Proof.
  intros H. induction l as [|x l IH]; simpl.
  - apply preserves_ret.
  - by apply preserves_bind.
Qed.
End Preserves.

(** One step through the shape of a computation; [solve_modify] closes
    the goals about the primitive changes of state. *)
Ltac pres_step solve_modify :=
  lazymatch goal with
  | |- PreOrder _ => apply _
  | |- ∀ _, _ => intros ?
  | |- preserves _ (bind _ _) => apply preserves_bind
  | |- preserves _ (ret _) => apply preserves_ret
  | |- preserves _ (raise _) => apply preserves_raise
  | |- preserves _ (lift _) => apply preserves_lift
  | |- preserves _ (gets _) => apply preserves_gets
  | |- preserves _ (getattr _ _) => apply preserves_getattr
  | |- preserves _ (read_dict _) => apply preserves_read_dict
  | |- preserves _ (when _ _) => apply preserves_when
  | |- preserves _ (for_each _ _) => apply preserves_for_each
  | |- preserves _ (emit _) => apply preserves_modify
  | |- preserves _ (modify _) => apply preserves_modify
  | |- preserves _ (setattr _ _ _) => apply preserves_modify
  | |- preserves _ (dict_update _ _) => apply preserves_modify
  | |- preserves _ (dict_del _ _) => apply preserves_modify
  | |- preserves _ (alloc _) => intros ?; solve_modify
  | |- preserves _ (if ?b then _ else _) => destruct b
  | |- preserves _ (match ?x with _ => _ end) => destruct x
  | |- _ => solve_modify
  end.

Create HintDb pres.

Ltac pres solve_modify :=
  repeat first [ solve [auto with pres] | pres_step solve_modify ].

(** *** The four relations are preorders *)

Global Instance trace_grows_preorder : PreOrder trace_grows.
Proof.
  split.
  - intros s. exists []. by rewrite app_nil_r.
  - intros s1 s2 s3 [e1 H1] [e2 H2]. exists (e1 ++ e2).
    by rewrite H2, H1, app_assoc.
Qed.

Global Instance trace_quiet_preorder : PreOrder trace_quiet.
Proof.
  split.
  - intros s. exists []. split; [by rewrite app_nil_r | constructor].
  - intros s1 s2 s3 (e1 & H1 & Q1) (e2 & H2 & Q2). exists (e1 ++ e2).
    split; [by rewrite H2, H1, app_assoc | by apply Forall_app].
Qed.

Global Instance same_parsed_preorder : PreOrder same_parsed.
Proof.
  split; [done |]. intros s1 s2 s3 H1 H2. unfold same_parsed in *. congruence.
Qed.

Global Instance same_namespace_preorder : PreOrder same_namespace.
Proof.
  split; [done |].
  intros s1 s2 s3 (? & ? & ?) (? & ? & ?). unfold same_namespace.
  repeat split; [congruence | congruence | set_solver].
Qed.

Ltac solve_grows :=
  first [ by exists []; simpl; rewrite app_nil_r | by eexists [_] ].

Ltac solve_quiet :=
  first [ by exists []; simpl; rewrite app_nil_r; split; [| constructor]
        | by eexists [_]; split; [| repeat constructor] ].

Ltac solve_parsed := reflexivity.

Ltac solve_namespace :=
  split; [reflexivity |]; split; [reflexivity |]; simpl;
  first [ reflexivity
        | by rewrite dom_alter_L
        | rewrite dom_insert_L; set_solver ].

(** *** Methods and the trace *)

Lemma register_token_grows : preserves trace_grows register_token.
Proof. unfold register_token. pres solve_grows. Qed.
#[local] Hint Resolve register_token_grows : pres.

Lemma config_dict_grows l b : preserves trace_grows (config_dict l b).
Proof. unfold config_dict. pres solve_grows. Qed.
#[local] Hint Resolve config_dict_grows : pres.

Lemma config_grows c b : preserves trace_grows (config c b).
Proof. unfold config. pres solve_grows. Qed.
#[local] Hint Resolve config_grows : pres.

Section Trace.
Context (tcex : TcEx).

Lemma get_secure_params_grows : preserves trace_grows (_get_secure_params tcex).
Proof. unfold _get_secure_params. pres solve_grows. Qed.
Hint Resolve get_secure_params_grows : pres.

Lemma load_aot_params_grows : preserves trace_grows (_load_aot_params tcex).
Proof. unfold _load_aot_params. pres solve_grows. Qed.

Lemma load_secure_params_grows : preserves trace_grows (_load_secure_params tcex).
Proof. unfold _load_secure_params. pres solve_grows. Qed.

Lemma update_logging_grows : preserves trace_grows update_logging.
Proof. unfold update_logging, tcex_log_level. pres solve_grows. Qed.

Lemma config_file_quiet f : preserves trace_quiet (config_file tcex f).
Proof. unfold config_file. pres solve_quiet. Qed.

Lemma parse_known_args_quiet : preserves trace_quiet parse_known_args.
Proof. unfold parse_known_args. pres solve_quiet. Qed.

Lemma results_tc_args_quiet : preserves trace_quiet (_results_tc_args tcex).
Proof. unfold _results_tc_args. pres solve_quiet. Qed.

End Trace.

(** *** C7: registration comes first *)

Lemma register_token_enters s :
  ∃ evs, trace (register_token s).2 = trace s ++ Enter "register_token" :: evs.
Proof.
  unfold register_token. unfold bind at 1. simpl.
  match goal with |- context [bind ?m ?k (add_event ?e s)] =>
    assert (preserves trace_grows (bind m k)) as H by pres solve_grows;
    destruct (H (add_event e s)) as [evs Hevs];
    destruct (bind m k (add_event e s)) as [[?|[]] s']
  end; simpl in *; exists evs; by rewrite Hevs, <- app_assoc.
Qed.

Lemma reaches_bind_quiet {A B} (m : M A) (k : A → M B) :
  preserves trace_quiet m → (∀ a, reaches_registration (k a)) →
  reaches_registration (bind m k).
Proof.
  intros Hm Hk s. unfold bind. destruct (Hm s) as (evs1 & H1 & Q1).
  destruct (m s) as [[e | a] s1]; simpl in *.
  - exists evs1. split; [done |]. right. split; [done |]. by exists e.
  - destruct (Hk a s1) as (evs2 & H2 & Hcases).
    exists (evs1 ++ evs2). split; [by rewrite H2, H1, app_assoc |].
    destruct Hcases as [(before & after & -> & Q2) | [Q2 He]].
    + left. exists (evs1 ++ before), after.
      split; [by rewrite app_assoc | by apply Forall_app].
    + right. split; [by apply Forall_app | done].
Qed.

Lemma reaches_here {B} (k : unit → M B) :
  (∀ a, preserves trace_grows (k a)) →
  reaches_registration (bind register_token k).
Proof.
  intros Hk s. unfold bind. destruct (register_token_enters s) as [evs1 H1].
  destruct (register_token s) as [[e | a] s1]; simpl in *.
  - exists (Enter "register_token" :: evs1). split; [done |].
    left. exists [], evs1. split; [done | constructor].
  - destruct (Hk a s1) as [evs2 H2].
    exists (Enter "register_token" :: evs1 ++ evs2).
    split; [by rewrite H2, H1, <- app_assoc |].
    left. exists [], (evs1 ++ evs2). split; [done | constructor].
Qed.

Lemma init_until_aot_params_reaches tcex config config_file_name :
  reaches_registration (init_until_aot_params tcex config config_file_name).
Proof.
  unfold init_until_aot_params.
  repeat (apply reaches_bind_quiet;
          [ first [ apply config_file_quiet | apply parse_known_args_quiet
                  | apply results_tc_args_quiet | solve [pres solve_quiet] ]
          | intros ? ]).
  apply reaches_here. intros _. apply load_aot_params_grows.
Qed.

Lemma registered_first evs :
  registered evs ∨ no_loader evs → registration_first evs.
Proof.
  intros Hcases pre ev post Hevs Hev.
  destruct Hcases as [(before & after & -> & Q) | Q].
  - apply app_eq_inv in Hevs as [(mid & -> & Hmid) | (mid & -> & Hmid)].
    + destruct mid as [|x mid]; simplify_eq/=.
      apply Forall_app in Q as [_ Q]. apply Forall_cons in Q as [Q _]. congruence.
    + destruct mid as [|x mid]; simplify_eq/=. set_solver.
  - subst. apply Forall_app in Q as [_ Q]. apply Forall_cons in Q as [Q _]. congruence.
Qed.

(** With a token in the namespace, [register_token] registers it. *)
Lemma register_token_registers s token expires :
  arg_value s "tc_token" = Some token → is_none token = false →
  arg_value s "tc_token_expires" = Some expires →
  register_token s
  = (inr (), add_event (TokenRegister "MainThread" token expires)
               (add_event (Enter "register_token") s)).
Proof.
  unfold arg_value. intros Htoken Hsome Hexpires. unfold register_token.
  unfold bind at 1. simpl. unfold bind at 1. simpl.
  unfold bind at 1, getattr at 1. simpl. rewrite Htoken, Hsome.
  unfold bind, getattr. simpl. by rewrite Hexpires.
Qed.

(** Without one, it only passes. *)
Lemma register_token_passes s :
  arg_value s "tc_token" = Some VNone →
  register_token s = (inr (), add_event (Enter "register_token") s).
Proof.
  unfold arg_value. intros Htoken. unfold register_token.
  unfold bind at 1. simpl. unfold bind at 1. simpl.
  unfold bind, getattr. simpl. by rewrite Htoken.
Qed.

(** In every run of the constructor, whatever its outcome, each loader
    event of the trace comes after an entry of [register_token]. *)
Lemma init_registration_first tcex config config_file_name s :
  ∃ evs : list event,
    trace (__init__ tcex config config_file_name s).2 = trace s ++ evs
    ∧ registration_first evs.
Proof.
  unfold __init__, bind at 1.
  destruct (init_until_aot_params_reaches tcex config config_file_name s)
    as (evs1 & H1 & Hcases).
  destruct (init_until_aot_params tcex config config_file_name s)
    as [[e | []] s1]; simpl in *.
  - exists evs1. split; [done |]. apply registered_first.
    destruct Hcases as [? | [? _]]; [by left | by right].
  - destruct Hcases as [(before & after & -> & Q) | [_ [e He]]]; [| done].
    match goal with |- context [bind ?m ?k s1] =>
      assert (preserves trace_grows (bind m k)) as H
        by (pres solve_grows; first [ apply load_secure_params_grows
                                    | apply update_logging_grows ]);
      destruct (H s1) as [evs2 H2]
    end.
    exists ((before ++ Enter "register_token" :: after) ++ evs2).
    split; [by rewrite H2, H1, <- !app_assoc |].
    apply registered_first. left. exists before, (after ++ evs2).
    split; [by rewrite <- app_assoc | done].
Qed.

(** The constructor is its part before the registration, then
    [register_token], then [_load_aot_params]. *)
Lemma init_until_aot_params_split tcex config config_file_name s :
  init_until_aot_params tcex config config_file_name s
  = (init_until_results_tc_args tcex config config_file_name ;;
     register_token ;; _load_aot_params tcex) s.
Proof.
  unfold init_until_aot_params, init_until_results_tc_args.
  repeat (rewrite bind_assoc; apply bind_ext; intros ? ?).
  done.
Qed.

Lemma init_until_results_tc_args_quiet tcex config config_file_name :
  preserves trace_quiet (init_until_results_tc_args tcex config config_file_name).
Proof.
  unfold init_until_results_tc_args.
  repeat first [ apply results_tc_args_quiet | apply config_file_quiet
               | apply parse_known_args_quiet
               | apply preserves_bind; [apply _ | | intros ?]
               | solve [pres solve_quiet] ].
Qed.

(** With a token in the namespace when [register_token] is reached, the
    trace of the constructor has its registration before any loader
    event. *)
Lemma init_registers_token tcex config config_file_name s s1 token expires :
  init_until_results_tc_args tcex config config_file_name s = (inr (), s1) →
  arg_value s1 "tc_token" = Some token → is_none token = false →
  arg_value s1 "tc_token_expires" = Some expires →
  ∃ before after : list event,
    trace (__init__ tcex config config_file_name s).2
    = trace s ++ before ++ Enter "register_token"
        :: TokenRegister "MainThread" token expires :: after
    ∧ no_loader before.
Proof.
  intros Hpre Htoken Hsome Hexpires.
  destruct (init_until_results_tc_args_quiet tcex config config_file_name s)
    as (before & Hbefore & Hquiet).
  rewrite Hpre in Hbefore. simpl in Hbefore.
  assert (init_until_aot_params tcex config config_file_name s
          = _load_aot_params tcex
              (add_event (TokenRegister "MainThread" token expires)
                 (add_event (Enter "register_token") s1))) as Hinit.
  { rewrite init_until_aot_params_split.
    rewrite (bind_inr _ _ _ _ _ Hpre).
    by rewrite (bind_inr _ _ _ _ _
                  (register_token_registers s1 token expires Htoken Hsome Hexpires)). }
  exists before. unfold __init__, bind at 1. rewrite Hinit.
  match goal with |- context [_load_aot_params tcex ?s2] =>
    destruct (load_aot_params_grows tcex s2) as [evs1 H1];
    destruct (_load_aot_params tcex s2) as [[e | []] s3]
  end; simpl in H1.
  - exists evs1. split; [| done]. simpl.
    by rewrite H1, Hbefore, <- !app_assoc.
  - match goal with |- context [bind ?m ?k s3] =>
      assert (preserves trace_grows (bind m k)) as H
        by (pres solve_grows; first [ apply load_secure_params_grows
                                    | apply update_logging_grows ]);
      destruct (H s3) as [evs2 H2]
    end.
    exists (evs1 ++ evs2). split; [| done].
    by rewrite H2, H1, Hbefore, <- !app_assoc.
Qed.

(** C7.  In every run of the constructor, whatever its outcome, each
    loader event of the trace (the entry of [_load_aot_params] or of
    [_load_secure_params], the blocking pop, the request to the remote
    service) comes after an entry of [register_token].  And when the
    namespace that was merged from the configuration, the configuration
    file, the command line and the results file carries a [tc_token]
    that is not [None], that token is registered before any loader
    event: the trace is made of events none of which is a loader's, then
    the entry of [register_token] and the registration of the token with
    its [tc_token_expires], then the rest. *)
Theorem init_registers_before_loading tcex config config_file_name s :
  ∃ evs : list event,
    trace (__init__ tcex config config_file_name s).2 = trace s ++ evs
    ∧ registration_first evs
    ∧ ∀ s1 token expires,
        init_until_results_tc_args tcex config config_file_name s = (inr (), s1) →
        arg_value s1 "tc_token" = Some token → is_none token = false →
        arg_value s1 "tc_token_expires" = Some expires →
        token_registered_first token expires evs.
Proof.
  destruct (init_registration_first tcex config config_file_name s)
    as (evs & Htrace & Hfirst).
  exists evs. split; [done |]. split; [done |].
  intros s1 token expires Hpre Htoken Hsome Hexpires.
  destruct (init_registers_token tcex config config_file_name s s1 token expires
              Hpre Htoken Hsome Hexpires) as (before & after & Hreg & Hquiet).
  exists before, after. split; [| done].
  rewrite Htrace in Hreg. by apply app_inv_head in Hreg.
Qed.

Lemma init_registers_before_loading_witness :
  token_registered_first (VStr "abc") (VStr "1700000000")
    [ Enter "register_token";
      TokenRegister "MainThread" (VStr "abc") (VStr "1700000000");
      Enter "_load_aot_params"; AotBlpop; Enter "register_token";
      TokenRegister "MainThread" (VStr "abc") (VStr "1700000000");
      Enter "_load_secure_params"; Log Info "Loading secure params.";
      SessionGet "/internal/job/execution/parameters";
      Enter "register_token";
      TokenRegister "MainThread" (VStr "abc") (VStr "1700000000");
      Logger "log_info" [];
      Logger "add_rotating_file_handler"
        [ VStr "rfh"; VStr "app.log"; VStr "log"; VInt 5;
          VInt 10485760; VStr "info" ];
      Logger "replay_cached_events" [VStr "cache"] ].
Proof.
  destruct (init_registers_before_loading Fixtures.tcex_plain 0 None
              Fixtures.token_boot)
    as (evs & Htrace & _ & Htoken).
  vm_compute in Htrace. subst evs.
  apply (Htoken (init_until_results_tc_args Fixtures.tcex_plain 0 None
                   Fixtures.token_boot).2).
  - apply result_inr. vm_compute. reflexivity.
  - vm_compute. reflexivity.
  - reflexivity.
  - vm_compute. reflexivity.
Defined.

(** *** C10: [config] deletes from the dictionary it is given *)

Global Instance same_heap_preorder : PreOrder same_heap.
Proof.
  split; [done |]. intros s1 s2 s3 H1 H2. unfold same_heap in *. congruence.
Qed.

Ltac solve_heap := reflexivity.

Lemma register_token_same_heap : preserves same_heap register_token.
Proof. unfold register_token. pres solve_heap. Qed.

Lemma set_heap_insert_id l d s :
  heap s !! l = Some d → set_heap (<[l := d]>) s = s.
Proof. intros H. destruct s; unfold set_heap; simpl in *. by rewrite insert_id. Qed.

Lemma without_flags_cons sys_argv key ks d :
  without_flags sys_argv (key :: ks) d
  = without_flags sys_argv ks
      (if bool_decide ("--" +:+ key ∈ sys_argv) then delete key d else d).
Proof. done. Qed.

(** The loop of [config] over the keys [ks]. *)
Lemma delete_flags_loop l ks s d :
  heap s !! l = Some d →
  for_each ks (λ key,
    sys_argv <- gets argv ;;
    when (bool_decide ("--" +:+ key ∈ sys_argv)) (dict_del l key)) s
  = (inr (), set_heap (<[l := without_flags (argv s) ks d]>) s).
Proof.
  revert s d. induction ks as [|key ks IH]; intros s d Hd.
  - simpl. by rewrite set_heap_insert_id.
  - rewrite without_flags_cons. simpl. unfold bind at 1. unfold bind at 1. simpl.
    destruct (bool_decide ("--" +:+ key ∈ argv s)) eqn:E; simpl.
    + rewrite (IH _ (delete key d)); simpl.
      * unfold set_heap; simpl. do 2 f_equal.
        apply map_eq. intros i. destruct (decide (i = l)) as [-> |].
        -- by rewrite !lookup_insert_eq.
        -- by rewrite !lookup_insert_ne, lookup_alter_ne.
      * by rewrite lookup_alter_eq, Hd.
    + by rewrite (IH _ d).
Qed.

Lemma without_flags_lookup sys_argv ks d key :
  without_flags sys_argv ks d !! key
  = if bool_decide ("--" +:+ key ∈ sys_argv) && bool_decide (key ∈ ks)
    then None else d !! key.
Proof.
  revert d. induction ks as [|k ks IH]; intros d.
  - by rewrite andb_false_r.
  - rewrite without_flags_cons, IH.
    destruct (bool_decide ("--" +:+ key ∈ sys_argv)) eqn:Ekey; simpl.
    + destruct (decide (key = k)) as [-> |].
      * rewrite Ekey, lookup_delete_eq, (bool_decide_eq_true_2 (k ∈ k :: ks)); [| set_solver].
        by destruct (bool_decide (k ∈ ks)).
      * assert (bool_decide (key ∈ k :: ks) = bool_decide (key ∈ ks)) as ->.
        { apply bool_decide_ext. rewrite elem_of_cons.
          split; [intros [? | ?]; [congruence | done] | by right]. }
        destruct (bool_decide (key ∈ ks)); [done |].
        destruct (bool_decide ("--" +:+ k ∈ sys_argv)); [| done].
        by rewrite lookup_delete_ne.
    + destruct (bool_decide ("--" +:+ k ∈ sys_argv)) eqn:Ek; [| done].
      rewrite lookup_delete_ne; [done |]. intros ->. congruence.
Qed.

Lemma without_flags_keys sys_argv d key :
  without_flags sys_argv (keys d) d !! key
  = if bool_decide ("--" +:+ key ∈ sys_argv) then None else d !! key.
Proof.
  rewrite without_flags_lookup.
  destruct (bool_decide ("--" +:+ key ∈ sys_argv)); [| done]. simpl.
  case_bool_decide as Hin; [done |].
  destruct (d !! key) as [v|] eqn:E; [| done].
  destruct Hin. unfold keys. apply list_elem_of_fmap. exists (key, v).
  split; [done |]. by apply elem_of_map_to_list.
Qed.

(** The state in which [config] leaves the loop and merges. *)
Lemma config_dict_preserve_heap l s d :
  heap s !! l = Some d →
  heap (config_dict l true s).2
  = alter (λ d0, without_flags (argv s) (keys d) d ∪ d0) (_default_args s)
      (<[l := without_flags (argv s) (keys d) d]> (heap s)).
Proof.
  intros Hd. unfold config_dict, read_dict.
  change (when true ?m) with m.
  unfold bind at 1. unfold bind at 1. unfold gets at 1. simpl. rewrite Hd. simpl.
  rewrite (delete_flags_loop l (keys d) s d Hd).
  unfold bind at 1. simpl. rewrite lookup_insert_eq. simpl.
  unfold bind at 1. simpl. unfold bind at 1. simpl.
  apply register_token_same_heap.
Qed.

(** C10.  With [preserve] true, the dictionary object the caller passes
    is itself changed: when the call is over, whatever its outcome, every
    key whose flag [--key] is an element of [sys.argv] is gone from it and
    the other keys are as they were. *)
Theorem config_mutates_config_data s l d :
  heap s !! l = Some d →
  ∃ d', heap (config (ODict l) true s).2 !! l = Some d'
        ∧ ∀ key, d' !! key
                 = if bool_decide ("--" +:+ key ∈ argv s) then None else d !! key.
Proof.
  intros Hd. exists (without_flags (argv s) (keys d) d).
  split; [| apply without_flags_keys].
  simpl. rewrite (config_dict_preserve_heap l s d Hd).
  destruct (decide (_default_args s = l)) as [-> | Hne].
  - rewrite lookup_alter_eq, lookup_insert_eq. simpl. by rewrite map_union_idemp.
  - by rewrite lookup_alter_ne, lookup_insert_eq.
Qed.

Lemma config_mutates_config_data_witness :
  ∃ d', heap (config (ODict 1) true
                (Fixtures.instance_with ["app.py"; "--zone"; "a"]
                   Fixtures.flag_defaults
                   {[ "owner" := VStr "Beta"; "zone" := VStr "b" ]})).2 !! 1
        = Some d'
        ∧ d' !! "zone" = None ∧ d' !! "owner" = Some (VStr "Beta").
Proof.
  destruct (config_mutates_config_data
              (Fixtures.instance_with ["app.py"; "--zone"; "a"]
                 Fixtures.flag_defaults
                 {[ "owner" := VStr "Beta"; "zone" := VStr "b" ]})
              1 {[ "owner" := VStr "Beta"; "zone" := VStr "b" ]} eq_refl)
    as (d' & Hd' & Hkeys).
  exists d'. split; [exact Hd' |].
  split; rewrite Hkeys; reflexivity.
Defined.

(** *** C6: the keys of the resolved namespace *)

Lemma register_token_same_namespace : preserves same_namespace register_token.
Proof. unfold register_token. pres solve_namespace. Qed.
#[local] Hint Resolve register_token_same_namespace : pres.

Lemma config_dict_same_namespace l b : preserves same_namespace (config_dict l b).
Proof. unfold config_dict. pres solve_namespace. Qed.
#[local] Hint Resolve config_dict_same_namespace : pres.

Lemma config_same_namespace c b : preserves same_namespace (config c b).
Proof. unfold config. pres solve_namespace. Qed.
#[local] Hint Resolve config_same_namespace : pres.




(** Once resolved, and not asked to parse again, [resolved_args] hands the
    cached namespace back and changes nothing. *)
Lemma resolved_args_cached tcex s :
  _parsed_resolved s = true →
  resolved_args tcex false s = (inr (_default_args_resolved s), s).
Proof. intros H. unfold resolved_args, bind, gets. simpl. by rewrite H. Qed.



(** *** C5: a failing remote service aborts the constructor *)

Lemma register_token_same_parsed : preserves same_parsed register_token.
Proof. unfold register_token. pres solve_parsed. Qed.
#[local] Hint Resolve register_token_same_parsed : pres.

Lemma config_same_parsed c b : preserves same_parsed (config c b).
Proof. unfold config, config_dict. pres solve_parsed. Qed.
#[local] Hint Resolve config_same_parsed : pres.

Lemma init_until_aot_params_unparsed tcex config config_file_name s :
  _parsed (init_until_aot_params tcex config config_file_name s).2 = false.
Proof.
  unfold init_until_aot_params. unfold bind at 1. simpl.
  match goal with |- context [bind ?m ?k (set_parsed false s)] =>
    assert (preserves same_parsed (bind m k)) as H
  end.
  { unfold config_file, parse_known_args, _results_tc_args, _load_aot_params.
    pres solve_parsed. }
  apply H.
Qed.

Lemma lacks_inputs_caught r :
  lacks_inputs r →
  ∃ e, and_then (json r) (λ body, subscript body "inputs") = inl e
       ∧ caught e = true.
Proof.
  intros [(e & -> & He) | (body & -> & Hbody)]; simpl.
  - by exists e.
  - destruct body; try by exists TypeError.
    simpl. rewrite (Hbody _ eq_refl). by exists KeyError.
Qed.

Lemma get_secure_params_fails tcex s :
  let r := session_get tcex "/internal/job/execution/parameters" in
  ok r = false ∨ lacks_inputs r →
  _get_secure_params tcex s
  = (inl (secure_params_error r),
     add_event (SessionGet "/internal/job/execution/parameters")
       (add_event (Log Info "Loading secure params.") s)).
Proof.
  intros r Hfail. unfold _get_secure_params.
  unfold bind at 1. simpl. unfold bind at 1. simpl. fold r.
  destruct (ok r) eqn:Hok; simpl; [| done].
  destruct Hfail as [? | Hfail]; [done |].
  apply lacks_inputs_caught in Hfail as (e & -> & ->). done.
Qed.

(** C5, as amended.  When the constructor has come as far as
    [_load_secure_params], the flag [tc_secure_params] is true, and the
    remote service answers with a status that is not a success or with a
    body that cannot be read as an object with an [inputs] member, the
    constructor raises a [RuntimeError] whose message holds the body of the
    response, or its reason when the body is empty.  Nothing runs after the
    request, no instance is returned and [_parsed] is false. *)
Theorem secure_params_failure_aborts tcex config config_file_name s s1 flag :
  let r := session_get tcex "/internal/job/execution/parameters" in
  init_until_aot_params tcex config config_file_name s = (inr (), s1) →
  heap s1 !! _default_args s1 ≫= (λ d, d !! "tc_secure_params") = Some flag →
  truthy flag = true →
  ok r = false ∨ lacks_inputs r →
  ∃ s',
    __init__ tcex config config_file_name s
    = (inl (RuntimeError
              ("Error retrieving secure params from API ("
               +:+ (if String.eqb (text r) "" then fmt_reason (reason r) else text r)
               +:+ ").")), s')
    ∧ _parsed s' = false
    ∧ trace s' = trace s1 ++ [ Enter "_load_secure_params";
                               Log Info "Loading secure params.";
                               SessionGet "/internal/job/execution/parameters" ].
Proof.
  intros r Hinit Hflag Htrue Hfail.
  pose proof (init_until_aot_params_unparsed tcex config config_file_name s) as Hparsed.
  rewrite Hinit in Hparsed. simpl in Hparsed.
  eexists. split; [| split].
  - unfold __init__. rewrite (bind_inr _ _ _ _ _ Hinit).
    apply bind_inl. unfold _load_secure_params.
    unfold bind at 1. simpl. unfold bind at 1. simpl.
    unfold bind at 1, getattr at 1. simpl. rewrite Hflag, Htrue.
    change (when true ?m) with m.
    apply bind_inl. by apply get_secure_params_fails.
  - done.
  - simpl. by rewrite <- !app_assoc.
Qed.

Lemma secure_params_failure_aborts_witness :
  (__init__ Fixtures.tcex_error 0 None Fixtures.secure_boot).1
  = inl (RuntimeError
           "Error retrieving secure params from API (Internal Server Error).").
Proof.
  destruct (secure_params_failure_aborts Fixtures.tcex_error 0 None
              Fixtures.secure_boot
              (init_until_aot_params Fixtures.tcex_error 0 None
                 Fixtures.secure_boot).2
              (VBool true))
    as (s' & Hraise & _).
  - apply result_inr. reflexivity.
  - reflexivity.
  - reflexivity.
  - left. reflexivity.
  - rewrite Hraise. reflexivity.
Defined.

(** C5, as first stated, fails: a body whose [inputs] member is null has
    not the expected shape, and the constructor raises an
    [AttributeError], which holds neither the body nor the reason. *)
Lemma null_inputs_raises_attribute_error :
  json (session_get Fixtures.tcex_null_inputs "/internal/job/execution/parameters")
  = inr (VDict {[ "inputs" := VNone ]})
  ∧ (__init__ Fixtures.tcex_null_inputs 0 None Fixtures.secure_boot).1
    = inl AttributeError.
Proof. split; reflexivity. Qed.

(** *** C4: the configuration file *)

(** C4, as amended.  Without a file name the result is the empty
    dictionary; with the name of a file that does not exist the result is
    the empty dictionary and the error is logged; with the name of a file
    that exists the result is what the decoder gives for its contents, so a
    malformed file raises the decoder's exception to the caller. *)
Theorem config_file_outcomes tcex s :
  config_file tcex None s = (inr (VDict ∅), s)
  ∧ (∀ filename,
       files s !! filename = None →
       config_file tcex (Some filename) s
       = (inr (VDict ∅),
          add_event (Log Error ("Could not load configuration file " +:+ dquote
                                +:+ filename +:+ dquote +:+ ".")) s))
  ∧ (∀ filename contents,
       files s !! filename = Some contents →
       config_file tcex (Some filename) s = (json_load tcex contents, s)).
Proof.
  split; [done |]. split.
  - intros filename H. unfold config_file, bind, gets. simpl. by rewrite H.
  - intros filename contents H. unfold config_file, bind, gets. simpl. by rewrite H.
Qed.

Lemma config_file_outcomes_witness :
  (config_file Fixtures.tcex_plain (Some "missing.json") Fixtures.broken_file_boot).1
  = inr (VDict ∅)
  ∧ (config_file Fixtures.tcex_plain (Some "app.json") Fixtures.broken_file_boot).1
    = inl ValueError.
Proof.
  split.
  - rewrite (proj1 (proj2 (config_file_outcomes Fixtures.tcex_plain
                             Fixtures.broken_file_boot)) "missing.json" eq_refl).
    reflexivity.
  - rewrite (proj2 (proj2 (config_file_outcomes Fixtures.tcex_plain
                             Fixtures.broken_file_boot)) "app.json" "{" eq_refl).
    reflexivity.
Defined.

(** C4, as first stated, fails: the file exists, its contents are not
    JSON, and the decoder's exception reaches the caller. *)
Lemma config_file_malformed_raises :
  files Fixtures.broken_file_boot !! "app.json" = Some "{"
  ∧ json_load Fixtures.tcex_plain "{" = inl ValueError
  ∧ config_file Fixtures.tcex_plain (Some "app.json") Fixtures.broken_file_boot
    = (inl ValueError, Fixtures.broken_file_boot).
Proof. repeat split. Qed.

(** *** C2, C3: coercion of parameters of several values *)

Lemma update_param_several tcex arg value :
  several_values tcex arg →
  update_param tcex arg value
  = match value with
    | VDict _ => inr value
    | _ => py_split value (ij_list_delimiter tcex)
    end.
Proof.
  intros (param_type & Htype & Hcases). unfold update_param. rewrite Htype.
  destruct Hcases as [-> | ->]; [done | by rewrite orb_true_r].
Qed.

(** A string is split on the delimiter. *)
Lemma update_param_splits tcex arg s :
  several_values tcex arg → ij_list_delimiter tcex ≠ "" →
  update_param tcex arg (VStr s)
  = inr (VList (VStr <$> PyStr.split_scan (ij_list_delimiter tcex) "" s 0)).
Proof.
  intros H Hdelim. rewrite (update_param_several _ _ _ H). simpl.
  unfold PyStr.split. by destruct (ij_list_delimiter tcex).
Qed.

(** A dictionary is the one value left as it is. *)
Lemma update_param_keeps_dict tcex arg d :
  several_values tcex arg → update_param tcex arg (VDict d) = inr (VDict d).
Proof. intros H. by rewrite (update_param_several _ _ _ H). Qed.

(** A list has no [split]. *)
Lemma update_param_rejects_list tcex arg l :
  several_values tcex arg → update_param tcex arg (VList l) = inl AttributeError.
Proof. intros H. by rewrite (update_param_several _ _ _ H). Qed.

Lemma tags_several_values : several_values Fixtures.tcex_plain "tags".
Proof. exists "multichoice". split; [vm_compute; reflexivity | by left]. Qed.

(** C3.  The delimited string is split, but a value that is already a
    sequence is not left as it is: [update_params] raises
    [AttributeError] on it. *)
Theorem update_params_rejects_sequence :
  update_params Fixtures.tcex_plain (VDict {[ "tags" := VStr "a,b,c" ]})
  = inr {[ "tags" := VList [VStr "a"; VStr "b"; VStr "c"] ]}
  ∧ update_params Fixtures.tcex_plain
      (VDict {[ "tags" := VList [VStr "a"; VStr "b"; VStr "c"] ]})
    = inl AttributeError.
Proof. split; vm_compute; reflexivity. Qed.

(** C2.  Coercion is not idempotent on a MultiChoice parameter: what the
    first application gives, the second one rejects. *)
Theorem update_params_twice_raises :
  update_params Fixtures.tcex_plain (VDict {[ "tags" := VStr "a,b,c" ]})
  = inr {[ "tags" := VList [VStr "a"; VStr "b"; VStr "c"] ]}
  ∧ and_then (update_params Fixtures.tcex_plain (VDict {[ "tags" := VStr "a,b,c" ]}))
      (λ once, update_params Fixtures.tcex_plain (VDict once))
    = inl AttributeError.
Proof. split; vm_compute; reflexivity. Qed.

(** On a Boolean parameter the second application changes nothing. *)
Lemma update_params_twice_boolean :
  update_params Fixtures.tcex_plain (VDict {[ "debug_mode" := VStr "true" ]})
  = inr {[ "debug_mode" := VBool true ]}
  ∧ update_params Fixtures.tcex_plain (VDict {[ "debug_mode" := VBool true ]})
    = inr {[ "debug_mode" := VBool true ]}.
Proof. split; vm_compute; reflexivity. Qed.

(** *** C1: values given on the command line *)

(** A key whose flag is an element of [sys.argv] keeps its value through
    one merge. *)
Lemma config_keeps_flagged_key c s key :
  is_Some (heap s !! _default_args s) → passed s c →
  "--" +:+ key ∈ argv s →
  arg_value (config c true s).2 key = arg_value s key.
Proof.
  intros [d0 Hns] Hc Hkey. unfold arg_value.
  destruct (config_same_namespace c true s) as (-> & _ & _).
  assert (∀ l d (s1 : state),
            l ≠ _default_args s → heap s1 !! l = Some d →
            heap s1 !! _default_args s = Some d0 →
            _default_args s1 = _default_args s → argv s1 = argv s →
            heap (config_dict l true s1).2 !! _default_args s
              ≫= (λ d, d !! key) = d0 !! key) as Hdict.
  { intros l d s1 Hne Hd Hd0 Hsame Hargv.
    rewrite (config_dict_preserve_heap l s1 d Hd), Hsame, Hargv.
    rewrite lookup_alter_eq, lookup_insert_ne, Hd0 by done. simpl.
    rewrite lookup_union_r; [done |].
    rewrite without_flags_keys. by rewrite bool_decide_eq_true_2. }
  rewrite Hns. simpl. destruct c as [l | v]; simpl in *.
  - destruct Hc as [Hne [d Hd]]. by apply (Hdict l d s).
  - destruct v; simpl; rewrite ?Hns; try done.
    unfold bind, alloc. simpl.
    assert (fresh (dom (heap s)) ≠ _default_args s) as Hfresh.
    { intros Heq. apply (is_fresh (dom (heap s))). rewrite Heq.
      by apply elem_of_dom_2 in Hns. }
    apply (Hdict _ d); simpl; [done | | | done | done].
    + by rewrite lookup_insert_eq.
    + by rewrite lookup_insert_ne.
Qed.

(** And through any sequence of merges. *)
Lemma merges_keep_flagged_key cs s key :
  is_Some (heap s !! _default_args s) → Forall (passed s) cs →
  "--" +:+ key ∈ argv s →
  arg_value (for_each cs (λ c, config c true) s).2 key = arg_value s key.
Proof.
  revert s. induction cs as [|c cs IH]; intros s Hns Hcs Hkey; [done |].
  apply Forall_cons in Hcs as [Hc Hcs]. simpl. unfold bind.
  pose proof (config_keeps_flagged_key c s key Hns Hc Hkey) as Hone.
  destruct (config_same_namespace c true s) as (Hsame & Hargv & Hdom).
  destruct (config c true s) as [[e | []] s1]; simpl in *; [done |].
  rewrite <- Hone. apply IH.
  - rewrite Hsame. apply elem_of_dom, Hdom. by apply elem_of_dom.
  - eapply Forall_impl; [exact Hcs |]. intros [l | v]; simpl; [| done].
    intros [Hne Hl]. split; [by rewrite Hsame |].
    apply elem_of_dom, Hdom. by apply elem_of_dom.
  - by rewrite Hargv.
Qed.

(** The flag and its value given apart: the later value is dropped. *)
Lemma config_keeps_owner_apart :
  arg_value (config (OVal (VDict {[ "owner" := VStr "Beta" ]})) true
               Fixtures.owner_apart).2 "owner"
  = Some (VStr "Acme").
Proof. vm_compute. reflexivity. Qed.

(** C1.  The flag given as [--owner=Acme]: the element of [sys.argv] is
    not [--owner], the key is not dropped, and the later value replaces the
    one of the command line. *)
Theorem config_overwrites_flag_with_equals :
  arg_value Fixtures.owner_with_equals "owner" = Some (VStr "Acme")
  ∧ arg_value (config (OVal (VDict {[ "owner" := VStr "Beta" ]})) true
                 Fixtures.owner_with_equals).2 "owner"
    = Some (VStr "Beta").
Proof. split; vm_compute; reflexivity. Qed.

End InputsFacts.

(** ** More on strings *)

Module PyStrFacts.
Import PyStr ReFacts InputsSpec.

#[local] Arguments String.append !_ _ / : simpl nomatch.

Lemma all_chars_append p a b :
  all_chars p (a +:+ b) = all_chars p a && all_chars p b.
Proof. induction a as [|c a IH]; simpl; [done |]. by rewrite IH, andb_assoc. Qed.

(** A piece without the separator is collected whole. *)
Lemma split_scan_piece c cur a rest :
  no_char c a = true →
  split_scan (String c "") cur (a +:+ rest) 0
  = split_scan (String c "") (cur +:+ a) rest 0.
Proof.
  revert cur. induction a as [|x a IH]; intros cur Ha; simpl.
  - by rewrite append_nil_r.
  - unfold no_char in Ha. simpl in Ha. apply andb_true_iff in Ha as [Hx Ha].
    destruct (Ascii.eqb c x) eqn:E.
    + apply Ascii.eqb_eq in E as ->. by rewrite Ascii.eqb_refl in Hx.
    + destruct (a +:+ rest); rewrite IH by done;
        by rewrite append_assoc.
  Qed.

(** At the separator a piece ends. *)
Lemma split_scan_separator c cur rest :
  split_scan (String c "") cur (String c rest) 0
  = cur :: split_scan (String c "") "" rest 0.
Proof. simpl. by rewrite Ascii.eqb_refl. Qed.

(** Splitting what [join] made, for a separator of one character that no
    piece holds. *)
Lemma split_scan_join c l cur :
  l ≠ [] → Forall (λ piece, no_char c piece = true) l →
  split_scan (String c "") cur (join (String c "") l) 0
  = match l with
    | [] => [cur]
    | piece :: l' => (cur +:+ piece) :: l'
    end.
Proof.
  intros Hne Hl. revert cur. induction Hl as [|x l Hx Hl IH]; intros cur; [done |].
  destruct l as [|y l].
  - simpl. rewrite <- (append_nil_r x) at 1.
    by rewrite split_scan_piece.
  - change (join (String c "") (x :: y :: l))
      with (x +:+ String c (join (String c "") (y :: l))).
    rewrite split_scan_piece, split_scan_separator by done.
    by rewrite IH.
Qed.

Lemma split_join c l :
  l ≠ [] → Forall (λ piece, no_char c piece = true) l →
  split (String c "") (join (String c "") l) = Some l.
Proof.
  intros Hne Hl. unfold split. rewrite split_scan_join by done.
  by destruct l.
Qed.

(** A piece without the first character of the separator is collected
    whole, whatever the rest of the separator is. *)
Lemma split_scan_run c sep cur a rest :
  no_char c a = true →
  split_scan (String c sep) cur (a +:+ rest) 0
  = split_scan (String c sep) (cur +:+ a) rest 0.
Proof.
  revert cur. induction a as [|x a IH]; intros cur Ha.
  - simpl. by rewrite append_nil_r.
  - unfold no_char in Ha. simpl in Ha. apply andb_true_iff in Ha as [Hx Ha].
    change (String x a +:+ rest) with (String x (a +:+ rest)).
    cbn [split_scan strip_prefix].
    destruct (Ascii.eqb c x) eqn:E.
    + apply Ascii.eqb_eq in E as ->. by rewrite Ascii.eqb_refl in Hx.
    + rewrite IH by done. by rewrite append_assoc.
Qed.

(** A split has at least one piece, and the first one starts with what
    was collected. *)
Lemma split_scan_head sep cur s skip :
  ∃ t l, split_scan sep cur s skip = (cur +:+ t) :: l.
Proof.
  revert cur skip. induction s as [|x s IH]; intros cur skip.
  - exists "", []. simpl. by rewrite append_nil_r.
  - cbn [split_scan]. destruct skip as [|n]; [| apply IH].
    destruct (strip_prefix sep (String x s)).
    + exists "". eexists. by rewrite append_nil_r.
    + destruct (IH (cur +:+ String x "") 0%nat) as (t & l & ->).
      exists (String x t), l. by rewrite append_assoc.
Qed.

(** The pieces are made of characters of the text. *)
Lemma split_scan_all_chars p sep cur s skip :
  all_chars p cur = true → all_chars p s = true →
  Forall (λ piece, all_chars p piece = true) (split_scan sep cur s skip).
Proof.
  revert cur skip. induction s as [|x s IH]; intros cur skip Hcur Hs.
  - by constructor.
  - simpl in Hs. apply andb_true_iff in Hs as [Hx Hs].
    cbn [split_scan]. destruct skip as [|n]; [| by apply IH].
    destruct (strip_prefix sep (String x s)).
    + constructor; [done |]. by apply IH.
    + apply IH; [| done]. rewrite all_chars_append, Hcur. simpl. by rewrite Hx.
Qed.

(** The pieces of a split at one character do not hold it. *)
Lemma split_scan_free c cur s :
  no_char c cur = true →
  Forall (λ piece, no_char c piece = true) (split_scan (String c "") cur s 0).
Proof.
  revert cur. induction s as [|x s IH]; intros cur Hcur.
  - by constructor.
  - cbn [split_scan strip_prefix String.length Nat.sub].
    destruct (Ascii.eqb c x) eqn:E.
    + constructor; [done |]. by apply IH.
    + apply IH. unfold no_char in *. rewrite all_chars_append, Hcur. simpl.
      by rewrite Ascii.eqb_sym, E.
Qed.

Lemma all_chars_join p sep l :
  all_chars p sep = true → Forall (λ piece, all_chars p piece = true) l →
  all_chars p (join sep l) = true.
Proof.
  intros Hsep Hl. induction Hl as [|x l Hx Hl IH]; [done |].
  destruct l as [|y l]; [done |].
  change (join sep (x :: y :: l)) with (x +:+ sep +:+ join sep (y :: l)).
  by rewrite !all_chars_append, Hx, Hsep, IH.
Qed.

(** [replace] of one character leaves none of it, when the new text has
    none. *)
Lemma replace_free c new s :
  no_char c new = true → no_char c (replace (String c "") new s) = true.
Proof.
  intros Hnew. unfold replace, split. apply all_chars_join; [done |].
  by apply split_scan_free.
Qed.

(** [replace] brings in no character that neither the text nor the new
    text holds. *)
Lemma replace_all_chars p old new s :
  all_chars p new = true → all_chars p s = true →
  all_chars p (replace old new s) = true.
Proof.
  intros Hnew Hs. unfold replace, split. destruct old; [done |].
  apply all_chars_join; [done |]. by apply split_scan_all_chars.
Qed.

(** [replace] of a character the text does not hold changes nothing. *)
Lemma replace_absent c new s :
  no_char c s = true → replace (String c "") new s = s.
Proof.
  intros Hs. unfold replace, split.
  rewrite <- (append_nil_r s) at 1. rewrite split_scan_run by done.
  done.
Qed.

End PyStrFacts.

(** ** More of the [Inputs] class *)

Module InputsMore.
Import Inputs Effects InputsFacts InputsSpec.

(** *** Merging *)

(** [config] on a dictionary object, step by step: the state in which
    [register_token] is entered. *)
Lemma config_dict_steps l preserve s d :
  heap s !! l = Some d →
  let merged := if preserve : bool then without_flags (argv s) (keys d) d else d in
  config_dict l preserve s
  = register_token
      (set_heap (alter (λ d0, merged ∪ d0) (_default_args s))
         (set_heap (<[l := merged]>) s)).
Proof.
  intros Hd merged. unfold config_dict, read_dict. destruct preserve.
  - change (when true ?m) with m.
    unfold bind at 1. unfold bind at 1. unfold gets at 1. simpl. rewrite Hd. simpl.
    rewrite (delete_flags_loop l (keys d) s d Hd).
    unfold bind at 1. simpl. rewrite lookup_insert_eq. simpl.
    unfold bind at 1. simpl. by unfold bind at 1.
  - change (when false ?m) with (ret ()).
    unfold bind at 1. simpl. unfold bind at 1. simpl. rewrite Hd. simpl.
    unfold bind at 1. simpl. unfold bind at 1. simpl.
    subst merged. by rewrite (set_heap_insert_id l d s Hd).
Qed.

Lemma register_token_heap s : heap (register_token s).2 = heap s.
Proof. apply register_token_same_heap. Qed.

Lemma register_token_default_args s :
  _default_args (register_token s).2 = _default_args s.
Proof. by destruct (register_token_same_namespace s) as (? & _ & _). Qed.

Lemma lookup_merged (merged d0 : gmap string val) key :
  (merged ∪ d0) !! key
  = match merged !! key with Some v => Some v | None => d0 !! key end.
Proof.
  rewrite lookup_union. destruct (merged !! key), (d0 !! key); done.
Qed.

(** The namespace in the state in which [register_token] is entered. *)
Lemma merged_arg_value l preserve s d d0 key :
  l ≠ _default_args s → heap s !! l = Some d →
  heap s !! _default_args s = Some d0 →
  let merged := if preserve : bool then without_flags (argv s) (keys d) d else d in
  arg_value (set_heap (alter (λ d0, merged ∪ d0) (_default_args s))
               (set_heap (<[l := merged]>) s)) key
  = merged_value (argv s) preserve d d0 key.
Proof.
  intros Hne Hd Hd0 merged. unfold arg_value, merged_value. simpl.
  rewrite lookup_alter_eq, lookup_insert_ne, Hd0 by done. simpl.
  rewrite lookup_merged. subst merged. destruct preserve; simpl; [| done].
  rewrite without_flags_keys. by destruct (bool_decide _).
Qed.

(** The merge on a dictionary object other than the namespace. *)
Lemma config_dict_arg_value l preserve s d d0 key :
  l ≠ _default_args s → heap s !! l = Some d →
  heap s !! _default_args s = Some d0 →
  arg_value (config_dict l preserve s).2 key
  = merged_value (argv s) preserve d d0 key.
Proof.
  intros Hne Hd Hd0.
  rewrite <- (merged_arg_value l preserve s d d0 key Hne Hd Hd0).
  rewrite (config_dict_steps l preserve s d Hd). unfold arg_value.
  by rewrite register_token_heap, register_token_default_args.
Qed.

(** The merge of a dictionary passed by value. *)
Lemma config_value_arg_value d preserve s d0 key :
  heap s !! _default_args s = Some d0 →
  arg_value (config (OVal (VDict d)) preserve s).2 key
  = merged_value (argv s) preserve d d0 key.
Proof.
  intros Hd0. simpl. unfold bind, alloc. simpl.
  assert (fresh (dom (heap s)) ≠ _default_args s) as Hfresh.
  { intros Heq. apply (is_fresh (dom (heap s))). rewrite Heq.
    by apply elem_of_dom_2 in Hd0. }
  rewrite (config_dict_arg_value _ preserve _ d d0); simpl; try done.
  - by rewrite lookup_insert_eq.
  - by rewrite lookup_insert_ne.
Qed.

(** X1.  The merge policy of [config].  For a dictionary that is not the
    namespace itself: a key whose flag is an element of [sys.argv] keeps
    its value when [preserve] is set; any other key takes the value of the
    dictionary when it has one and keeps its own when it has not. *)
Theorem config_merge_policy c preserve s d d0 key :
  passed s c → passed_data s c = Some d →
  heap s !! _default_args s = Some d0 →
  arg_value (config c preserve s).2 key
  = merged_value (argv s) preserve d d0 key.
Proof.
  intros Hc Hd Hd0. destruct c as [l | v].
  - destruct Hc as [Hne _]. by apply config_dict_arg_value.
  - destruct v; try done. injection Hd as ->.
    by apply config_value_arg_value.
Qed.

Lemma config_merge_policy_witness :
  arg_value (config (OVal (VDict {[ "owner" := VStr "Beta"; "zone" := VStr "b" ]})) true
               Fixtures.owner_apart).2 "owner" = Some (VStr "Acme")
  ∧ arg_value (config (OVal (VDict {[ "owner" := VStr "Beta"; "zone" := VStr "b" ]})) true
                 Fixtures.owner_apart).2 "zone" = Some (VStr "b")
  ∧ arg_value (config (OVal (VDict {[ "owner" := VStr "Beta"; "zone" := VStr "b" ]})) false
                 Fixtures.owner_apart).2 "owner" = Some (VStr "Beta").
Proof.
  split; [| split].
  - etrans; [apply (config_merge_policy _ true Fixtures.owner_apart
                      {[ "owner" := VStr "Beta"; "zone" := VStr "b" ]}
                      ({[ "owner" := VStr "Acme" ]} ∪ Fixtures.flag_defaults));
             reflexivity || exact I | vm_compute; reflexivity].
  - etrans; [apply (config_merge_policy _ true Fixtures.owner_apart
                      {[ "owner" := VStr "Beta"; "zone" := VStr "b" ]}
                      ({[ "owner" := VStr "Acme" ]} ∪ Fixtures.flag_defaults));
             reflexivity || exact I | vm_compute; reflexivity].
  - etrans; [apply (config_merge_policy _ false Fixtures.owner_apart
                      {[ "owner" := VStr "Beta"; "zone" := VStr "b" ]}
                      ({[ "owner" := VStr "Acme" ]} ∪ Fixtures.flag_defaults));
             reflexivity || exact I | vm_compute; reflexivity].
Defined.

(** *** A token that arrives with a merge *)

Lemma config_dict_registers l preserve s d d0 token expires :
  l ≠ _default_args s → heap s !! l = Some d →
  heap s !! _default_args s = Some d0 →
  merged_value (argv s) preserve d d0 "tc_token" = Some token →
  is_none token = false →
  merged_value (argv s) preserve d d0 "tc_token_expires" = Some expires →
  (config_dict l preserve s).1 = inr ()
  ∧ trace (config_dict l preserve s).2
    = trace s ++ [ Enter "register_token";
                   TokenRegister "MainThread" token expires ].
Proof.
  intros Hne Hd Hd0 Htoken Hsome Hexpires.
  rewrite (config_dict_steps l preserve s d Hd).
  rewrite (register_token_registers _ token expires).
  - split; [done |]. simpl. by rewrite <- app_assoc.
  - by rewrite (merged_arg_value l preserve s d d0 _ Hne Hd Hd0).
  - done.
  - by rewrite (merged_arg_value l preserve s d d0 _ Hne Hd Hd0).
Qed.

(** X2.  A merge that leaves a token in the namespace registers it: when
    after the merge [tc_token] is not [None], [config] returns and its
    trace is the entry of [register_token] followed by the registration of
    that token with the [tc_token_expires] the namespace then holds. *)
Theorem config_registers_merged_token c preserve s d d0 token expires :
  passed s c → passed_data s c = Some d →
  heap s !! _default_args s = Some d0 →
  merged_value (argv s) preserve d d0 "tc_token" = Some token →
  is_none token = false →
  merged_value (argv s) preserve d d0 "tc_token_expires" = Some expires →
  (config c preserve s).1 = inr ()
  ∧ trace (config c preserve s).2
    = trace s ++ [ Enter "register_token";
                   TokenRegister "MainThread" token expires ].
Proof.
  intros Hc Hd Hd0 Htoken Hsome Hexpires. destruct c as [l | v]; simpl in *.
  - destruct Hc as [Hne _]. by apply (config_dict_registers l preserve s d d0).
  - destruct v; try done. injection Hd as ->.
    unfold bind, alloc. simpl.
    assert (fresh (dom (heap s)) ≠ _default_args s) as Hfresh.
    { intros Heq. apply (is_fresh (dom (heap s))). rewrite Heq.
      by apply elem_of_dom_2 in Hd0. }
    destruct (config_dict_registers (fresh (dom (heap s))) preserve
                (set_heap <[fresh (dom (heap s)) := d]> s) d d0 token expires)
      as [Hret Htrace]; simpl; try done.
    + by rewrite lookup_insert_eq.
    + by rewrite lookup_insert_ne.
Qed.

Lemma config_registers_merged_token_witness :
  trace (config (OVal (VDict {[ "tc_token" := VStr "abc";
                               "tc_token_expires" := VStr "1700000000" ]})) true
           (Fixtures.instance ["app.py"] Fixtures.flag_defaults)).2
  = [ Enter "register_token";
      TokenRegister "MainThread" (VStr "abc") (VStr "1700000000") ].
Proof.
  apply (config_registers_merged_token
           (OVal (VDict {[ "tc_token" := VStr "abc";
                           "tc_token_expires" := VStr "1700000000" ]})) true
           (Fixtures.instance ["app.py"] Fixtures.flag_defaults)
           {[ "tc_token" := VStr "abc"; "tc_token_expires" := VStr "1700000000" ]}
           Fixtures.flag_defaults (VStr "abc") (VStr "1700000000"));
    reflexivity || exact I.
Defined.

(** X3.  Without [preserve], the dictionary object the caller passes is
    left as it is, whatever the outcome of the call. *)
Theorem config_keeps_config_data s l d :
  heap s !! l = Some d →
  heap (config (ODict l) false s).2 !! l = Some d.
Proof.
  intros Hd. simpl. rewrite (config_dict_steps l false s d Hd).
  rewrite register_token_heap. simpl.
  destruct (decide (_default_args s = l)) as [-> | Hne].
  - rewrite lookup_alter_eq, lookup_insert_eq. simpl. by rewrite map_union_idemp.
  - by rewrite lookup_alter_ne, lookup_insert_eq.
Qed.

Lemma config_keeps_config_data_witness :
  heap (config (ODict 1) false
          (Fixtures.instance_with ["app.py"; "--zone"; "a"] Fixtures.flag_defaults
             {[ "owner" := VStr "Beta"; "zone" := VStr "b" ]})).2 !! 1
  = Some {[ "owner" := VStr "Beta"; "zone" := VStr "b" ]}.
Proof. apply config_keeps_config_data. reflexivity. Defined.

(** *** [update_params] on a whole payload *)

Lemma update_params_loop_raised tcex items e :
  foldl (update_params_step tcex) (inl e) items
  = inl e.
Proof. by induction items. Qed.

Lemma update_params_loop_cons tcex item items acc :
  foldl (update_params_step tcex) (inr acc) (item :: items)
  = match update_param tcex item.1 item.2 with
    | inl e => inl e
    | inr value =>
        foldl (update_params_step tcex) (inr (<[item.1 := value]> acc)) items
    end.
Proof.
  simpl. destruct (update_param tcex item.1 item.2); [| done].
  apply update_params_loop_raised.
Qed.

(** The loop over items of distinct keys, when it ends without raising. *)
Lemma update_params_loop_returns tcex items acc d' :
  NoDup items.*1 →
  foldl (update_params_step tcex) (inr acc) items
  = inr d' →
  (∀ k v, (k, v) ∈ items →
          ∃ v', update_param tcex k v = inr v' ∧ d' !! k = Some v')
  ∧ (∀ k, k ∉ items.*1 → d' !! k = acc !! k).
Proof.
  revert acc. induction items as [|[k0 v0] items IH]; intros acc Hnodup Hloop.
  - injection Hloop as <-. split; [| done]. intros k v H. by apply elem_of_nil in H.
  - rewrite update_params_loop_cons in Hloop. simpl in Hloop.
    apply NoDup_cons in Hnodup as [Hk0 Hnodup].
    destruct (update_param tcex k0 v0) as [e | v0'] eqn:E; [done |].
    destruct (IH _ Hnodup Hloop) as [Hin Hout]. split.
    + intros k v [Heq | Hk]%elem_of_cons.
      * injection Heq as -> ->. exists v0'. split; [done |].
        by rewrite (Hout k0 Hk0), lookup_insert_eq.
      * by apply Hin.
    + intros k Hk. simpl in Hk. apply not_elem_of_cons in Hk as [Hne Hk].
      by rewrite (Hout k Hk), lookup_insert_ne.
Qed.

(** The loop, when it raises: one of the items did. *)
Lemma update_params_loop_raises tcex items acc e :
  foldl (update_params_step tcex) (inr acc) items
  = inl e →
  ∃ k v, (k, v) ∈ items ∧ update_param tcex k v = inl e.
Proof.
  revert acc. induction items as [|[k0 v0] items IH]; intros acc Hloop; [done |].
  rewrite update_params_loop_cons in Hloop. simpl in Hloop.
  destruct (update_param tcex k0 v0) as [e0 | v0'] eqn:E.
  - injection Hloop as ->. exists k0, v0. split; [left | done].
  - destruct (IH _ Hloop) as (k & v & Hin & Hk). exists k, v. split; [by right | done].
Qed.

(** What the loop leaves when it ends without raising. *)
Lemma update_params_inr_items tcex (d d' : gmap string val) :
  update_params tcex (VDict d) = inr d' →
  dom d' = dom d
  ∧ ∀ k v, d !! k = Some v →
           ∃ v', update_param tcex k v = inr v' ∧ d' !! k = Some v'.
Proof.
  intros H. change (foldl (update_params_step tcex) (inr ∅) (map_to_list d) = inr d') in H.
  apply update_params_loop_returns in H as [Hin Hout];
    [| apply NoDup_fst_map_to_list].
  assert (∀ k v, d !! k = Some v →
                 ∃ v', update_param tcex k v = inr v' ∧ d' !! k = Some v') as Hall.
  { intros k v Hk. apply Hin. by apply elem_of_map_to_list. }
  split; [| done]. apply set_eq. intros k. rewrite !elem_of_dom. split.
  - intros [v' Hv']. destruct (d !! k) as [v|] eqn:E; [done |].
    rewrite Hout, lookup_empty in Hv'; [done |].
    intros ((k1 & v1) & -> & Hk1%elem_of_map_to_list)%list_elem_of_fmap.
    simpl in E. congruence.
  - intros [v Hv]. destruct (Hall k v Hv) as (v' & _ & Hv'). by exists v'.
Qed.

(** X4.  When [update_params] returns, the dictionary it returns has
    exactly the keys of the payload, and each key holds the coerced value
    of the payload. *)
Theorem update_params_pointwise tcex (d d' : gmap string val) :
  update_params tcex (VDict d) = inr d' →
  dom d' = dom d
  ∧ ∀ k v, d !! k = Some v →
           ∃ v', update_param tcex k v = inr v' ∧ d' !! k = Some v'.
Proof. apply update_params_inr_items. Qed.

Lemma update_params_pointwise_witness :
  ∃ v', update_param Fixtures.tcex_plain "debug_mode" (VStr "TRUE") = inr v'
        ∧ ({[ "debug_mode" := VBool true; "name" := VStr "x" ]} : gmap string val)
            !! "debug_mode" = Some v'.
Proof.
  assert (update_params Fixtures.tcex_plain
            (VDict {[ "debug_mode" := VStr "TRUE"; "name" := VStr "x" ]})
          = inr {[ "debug_mode" := VBool true; "name" := VStr "x" ]}) as H
    by (vm_compute; reflexivity).
  apply (proj2 (update_params_pointwise _ _ _ H) "debug_mode" (VStr "TRUE")).
  reflexivity.
Defined.

(** What the loop raises, one of the items raised. *)
Lemma update_params_inl_item tcex (d : gmap string val) e :
  update_params tcex (VDict d) = inl e →
  ∃ k v, d !! k = Some v ∧ update_param tcex k v = inl e.
Proof.
  intros H. change (foldl (update_params_step tcex) (inr ∅) (map_to_list d) = inl e) in H.
  apply update_params_loop_raises in H as (k & v & Hin & Hk).
  exists k, v. split; [by apply elem_of_map_to_list | done].
Qed.

(** X5.  [update_params] raises only what the coercion of one of the
    items of the payload raises. *)
Theorem update_params_raises_from_item tcex (d : gmap string val) e :
  update_params tcex (VDict d) = inl e →
  ∃ k v, d !! k = Some v ∧ update_param tcex k v = inl e.
Proof. apply update_params_inl_item. Qed.

Lemma update_params_raises_from_item_witness :
  ∃ k v, ({[ "name" := VStr "x"; "tags" := VNone ]} : gmap string val) !! k = Some v
         ∧ update_param Fixtures.tcex_plain k v = inl AttributeError.
Proof.
  apply (update_params_raises_from_item Fixtures.tcex_plain
           {[ "name" := VStr "x"; "tags" := VNone ]} AttributeError).
  vm_compute. reflexivity.
Defined.

(** An argument the install data do not declare and that is not one of
    the boolean arguments of the framework is passed on as it is. *)
Lemma update_param_undeclared tcex arg value :
  ij_params_dict tcex !! arg = None → arg ∉ tc_bool_args →
  utils_to_bool tcex (VBool false) = false →
  update_param tcex arg value = inr value.
Proof.
  intros Hno Hbool Hfalse. unfold update_param. rewrite Hno. simpl.
  rewrite !lookup_empty. simpl. rewrite Hfalse.
  by rewrite bool_decide_eq_false_2.
Qed.

(** X6.  A payload none of whose keys is declared in the install data or
    is a boolean argument of the framework comes back unchanged (with a
    [to_bool] for which [False] is false). *)
Theorem update_params_passes_undeclared tcex (d : gmap string val) :
  utils_to_bool tcex (VBool false) = false →
  (∀ k, is_Some (d !! k) → ij_params_dict tcex !! k = None ∧ k ∉ tc_bool_args) →
  update_params tcex (VDict d) = inr d.
Proof.
  intros Hfalse Hkeys.
  assert (∀ k v, d !! k = Some v → update_param tcex k v = inr v) as Hsame.
  { intros k v Hk. destruct (Hkeys k) as [Hno Hbool]; [by exists v |].
    by apply update_param_undeclared. }
  destruct (update_params tcex (VDict d)) as [e | d'] eqn:E.
  - apply update_params_inl_item in E as (k & v & Hk & He).
    rewrite (Hsame k v Hk) in He. done.
  - f_equal. apply update_params_inr_items in E as [Hdom Hall].
    apply map_eq. intros k. destruct (d !! k) as [v|] eqn:Hk.
    + destruct (Hall k v Hk) as (v' & Hv' & ->). rewrite (Hsame k v Hk) in Hv'.
      by injection Hv' as ->.
    + apply not_elem_of_dom. rewrite Hdom. by apply not_elem_of_dom.
Qed.

Lemma update_params_passes_undeclared_witness :
  update_params Fixtures.tcex_plain
    (VDict {[ "name" := VStr "x"; "count" := VInt 3 ]})
  = inr {[ "name" := VStr "x"; "count" := VInt 3 ]}.
Proof.
  apply update_params_passes_undeclared; [reflexivity |].
  intros k [v Hk]. apply lookup_insert_Some in Hk as [[<- _] | [_ Hk]].
  - split; [reflexivity |]. apply (bool_decide_eq_false_1 (_ ∈ _)). reflexivity.
  - apply lookup_singleton_Some in Hk as [<- _].
    split; [reflexivity |]. apply (bool_decide_eq_false_1 (_ ∈ _)). reflexivity.
Defined.

(** X7.  A parameter of several values comes back from its delimited
    form: when the delimiter is one character that none of the values
    holds, the string that joins them is coerced to the list of them. *)
Theorem update_param_join_round_trip tcex arg c (l : list string) :
  several_values tcex arg → ij_list_delimiter tcex = String c "" →
  l ≠ [] → Forall (λ piece, no_char c piece = true) l →
  update_param tcex arg (VStr (PyStr.join (String c "") l))
  = inr (VList (VStr <$> l)).
Proof.
  intros Harg Hdelim Hne Hl. rewrite (update_param_several _ _ _ Harg).
  unfold py_split. rewrite Hdelim. by rewrite PyStrFacts.split_join.
Qed.

Lemma update_param_join_round_trip_witness :
  update_param Fixtures.tcex_plain "tags" (VStr "red,green,,blue")
  = inr (VList [VStr "red"; VStr "green"; VStr ""; VStr "blue"]).
Proof.
  apply (update_param_join_round_trip Fixtures.tcex_plain "tags" ","
           ["red"; "green"; ""; "blue"]).
  - exact tags_several_values.
  - reflexivity.
  - discriminate.
  - repeat constructor.
Defined.

(** *** The remote service is asked only when the flag says so *)

Global Instance trace_offline_preorder : PreOrder trace_offline.
Proof.
  split.
  - intros s. exists []. split; [by rewrite app_nil_r | constructor].
  - intros s1 s2 s3 (e1 & H1 & Q1) (e2 & H2 & Q2). exists (e1 ++ e2).
    split; [by rewrite H2, H1, app_assoc | by apply Forall_app].
Qed.

Ltac solve_offline :=
  first [ by exists []; simpl; rewrite app_nil_r; split; [| constructor]
        | by eexists [_]; split; [| repeat constructor] ].

Lemma register_token_offline : preserves trace_offline register_token.
Proof. unfold register_token. pres solve_offline. Qed.
#[local] Hint Resolve register_token_offline : pres.

Lemma config_offline c b : preserves trace_offline (config c b).
Proof. unfold config, config_dict. pres solve_offline. Qed.
#[local] Hint Resolve config_offline : pres.

Lemma init_until_aot_params_offline tcex config config_file_name :
  preserves trace_offline (init_until_aot_params tcex config config_file_name).
Proof.
  unfold init_until_aot_params, config_file, parse_known_args, _results_tc_args,
    _load_aot_params.
  pres solve_offline.
Qed.

Lemma update_logging_offline : preserves trace_offline update_logging.
Proof. unfold update_logging, tcex_log_level. pres solve_offline. Qed.

(** With the flag off, [_load_secure_params] only passes. *)
Lemma load_secure_params_off tcex s flag :
  arg_value s "tc_secure_params" = Some flag → truthy flag = false →
  _load_secure_params tcex s
  = (inr (), add_event (Enter "_load_secure_params") s).
Proof.
  unfold arg_value. intros Hflag Hoff. unfold _load_secure_params.
  unfold bind at 1. simpl. unfold bind at 1. simpl.
  unfold bind, getattr. simpl. by rewrite Hflag, Hoff.
Qed.

(** X8.  When the constructor has come as far as [_load_secure_params]
    and the flag [tc_secure_params] is false, no request to the remote
    service is part of the trace of the constructor. *)
Theorem init_offline_without_flag tcex config config_file_name s s1 flag :
  init_until_aot_params tcex config config_file_name s = (inr (), s1) →
  arg_value s1 "tc_secure_params" = Some flag → truthy flag = false →
  ∃ evs : list event,
    trace (__init__ tcex config config_file_name s).2 = trace s ++ evs
    ∧ Forall (λ e, request e = false) evs.
Proof.
  intros Hinit Hflag Hoff.
  destruct (init_until_aot_params_offline tcex config config_file_name s)
    as (evs1 & H1 & Q1).
  rewrite Hinit in H1. simpl in H1.
  unfold __init__. rewrite (bind_inr _ _ _ _ _ Hinit).
  rewrite (bind_inr _ _ _ _ _ (load_secure_params_off tcex s1 flag Hflag Hoff)).
  match goal with |- context [bind ?m ?k ?s0] =>
    assert (preserves trace_offline (bind m k)) as H
      by (pres solve_offline; apply update_logging_offline);
    destruct (H s0) as (evs2 & H2 & Q2)
  end.
  exists (evs1 ++ Enter "_load_secure_params" :: evs2).
  split.
  - rewrite H2. simpl. rewrite H1. by rewrite <- !app_assoc.
  - apply Forall_app. split; [done |]. by constructor.
Qed.

Lemma init_offline_without_flag_witness :
  ∃ evs : list event,
    trace (__init__ Fixtures.tcex_error 0 None
             (Fixtures.process ["app.py"] ∅ {[ 0 := ∅ ]})).2 = [] ++ evs
    ∧ Forall (λ e, request e = false) evs.
Proof.
  apply (init_offline_without_flag Fixtures.tcex_error 0 None
           (Fixtures.process ["app.py"] ∅ {[ 0 := ∅ ]})
           (init_until_aot_params Fixtures.tcex_error 0 None
              (Fixtures.process ["app.py"] ∅ {[ 0 := ∅ ]})).2
           (VBool false)).
  - apply result_inr. reflexivity.
  - reflexivity.
  - reflexivity.
Defined.

(** *** Parsing and resolving happen once *)

Lemma unknown_args_same_parsed : preserves same_parsed unknown_args.
Proof. unfold unknown_args. pres solve_parsed. Qed.

Lemma args_parsed s :
  _parsed s = true → args false s = (inr (_default_args s), s).
Proof. intros H. unfold args, bind, gets. simpl. by rewrite H. Qed.

(** X9.  Arguments are parsed once: when [args] returns, [_parsed] is set,
    what it returns is the namespace, and a further [args()] returns the
    same namespace and changes nothing. *)
Theorem args_parses_once parse s l s' :
  args parse s = (inr l, s') →
  _parsed s' = true ∧ l = _default_args s' ∧ args false s' = (inr l, s').
Proof.
  intros H.
  assert (_parsed s' = true ∧ l = _default_args s') as [Hparsed ->].
  { unfold args in H. unfold bind at 1, gets at 1 in H.
    destruct (negb (_parsed s) || parse) eqn:Hrun.
    - change (when true ?m) with m in H.
      apply bind_inr_inv in H as ([] & s2 & Hbody & Hret).
      injection Hret as <- <-. split; [| done].
      apply bind_inr_inv in Hbody as ([] & s3 & _ & Hbody).
      apply bind_inr_inv in Hbody as (ns & s4 & _ & Hbody).
      apply bind_inr_inv in Hbody as ([] & s5 & _ & Hbody).
      apply bind_inr_inv in Hbody as (topic & s6 & _ & Hbody).
      apply bind_inr_inv in Hbody as ([] & s7 & _ & Hbody).
      unfold bind at 1 in Hbody. simpl in Hbody.
      pose proof (unknown_args_same_parsed (set_parsed true s7)) as Hsame.
      rewrite Hbody in Hsame. exact Hsame.
    - change (when false ?m) with (ret ()) in H.
      unfold bind, ret, gets in H. injection H as <- <-.
      split; [| done]. apply orb_false_iff in Hrun as [Hrun _].
      by apply negb_false_iff in Hrun. }
  split; [done |]. split; [done |]. by apply args_parsed.
Qed.

Lemma args_parses_once_witness :
  _parsed (args false (Fixtures.instance ["app.py"] Fixtures.flag_defaults)).2 = true.
Proof.
  apply (args_parses_once false
           (Fixtures.instance ["app.py"] Fixtures.flag_defaults) 0
           (args false (Fixtures.instance ["app.py"] Fixtures.flag_defaults)).2).
  apply result_inr. reflexivity.
Defined.

(** X10.  Arguments are resolved once: when [resolved_args] returns, a
    further [resolved_args()] returns the same resolved namespace and
    changes nothing. *)
Theorem resolved_args_resolves_once tcex parse s l s' :
  resolved_args tcex parse s = (inr l, s') →
  _parsed_resolved s' = true ∧ resolved_args tcex false s' = (inr l, s').
Proof.
  intros H.
  assert (_parsed_resolved s' = true ∧ l = _default_args_resolved s') as [Hdone ->].
  { unfold resolved_args in H. unfold bind at 1, gets at 1 in H.
    destruct (negb (_parsed_resolved s) || parse) eqn:Hrun.
    - change (when true ?m) with m in H.
      apply bind_inr_inv in H as ([] & s2 & Hbody & Hret).
      injection Hret as <- <-. split; [| done].
      apply bind_inr_inv in Hbody as (l0 & s3 & _ & Hbody).
      apply bind_inr_inv in Hbody as (r & s4 & _ & Hbody).
      apply bind_inr_inv in Hbody as ([] & s5 & _ & Hbody).
      apply bind_inr_inv in Hbody as (ns & s6 & _ & Hbody).
      apply bind_inr_inv in Hbody as (d & s7 & _ & Hbody).
      apply bind_inr_inv in Hbody as ([] & s8 & _ & Hbody).
      by injection Hbody as <-.
    - change (when false ?m) with (ret ()) in H.
      unfold bind, ret, gets in H. injection H as <- <-.
      split; [| done]. apply orb_false_iff in Hrun as [Hrun _].
      by apply negb_false_iff in Hrun. }
  split; [done |]. by apply resolved_args_cached.
Qed.

Lemma resolved_args_resolves_once_witness :
  _parsed_resolved
    (resolved_args Fixtures.tcex_plain false
       (Fixtures.instance ["app.py"] Fixtures.flag_defaults)).2 = true.
Proof.
  apply (resolved_args_resolves_once Fixtures.tcex_plain false
           (Fixtures.instance ["app.py"] Fixtures.flag_defaults) 1
           (resolved_args Fixtures.tcex_plain false
              (Fixtures.instance ["app.py"] Fixtures.flag_defaults)).2).
  apply result_inr. reflexivity.
Defined.

(** *** The values of the resolved namespace *)




(** *** The service id *)

Lemma unknown_args_same_heap : preserves same_heap unknown_args.
Proof. unfold unknown_args. pres solve_heap. Qed.

Lemma unknown_args_same_namespace : preserves same_namespace unknown_args.
Proof. unfold unknown_args. pres solve_namespace. Qed.

(** X12.  When [args] parses and returns with a string as
    [tc_svc_client_topic], that string has at least three parts between
    dashes and [service_id] is the third of them. *)
Theorem args_service_id parse s l s' topic :
  negb (_parsed s) || parse = true →
  args parse s = (inr l, s') →
  arg_value s' "tc_svc_client_topic" = Some (VStr topic) →
  ∃ third,
    PyStr.split_scan "-" "" topic 0 !! 2 = Some third
    ∧ arg_value s' "service_id" = Some (VStr third).
Proof.
  intros Hrun H Htopic. unfold args in H.
  unfold bind at 1, gets at 1 in H. rewrite Hrun in H.
  change (when true ?m) with m in H.
  apply bind_inr_inv in H as ([] & s2 & Hbody & Hret).
  injection Hret as <- <-.
  apply bind_inr_inv in Hbody as ([] & s3 & _ & Hbody).
  unfold bind at 1, gets at 1 in Hbody.
  apply bind_inr_inv in Hbody as ([] & s5 & Hconfig & Hbody).
  destruct (config_same_namespace (ODict (_default_args s3)) false s3)
    as (Hns5 & _ & _).
  rewrite Hconfig in Hns5. simpl in Hns5.
  apply bind_inr_inv in Hbody as (tv & s6 & Hget & Hbody).
  assert (s6 = s5 ∧ arg_value s5 "tc_svc_client_topic" = Some tv) as [-> Htv].
  { unfold getattr in Hget. unfold arg_value. rewrite Hns5.
    destruct (_ ≫= _); by simplify_eq. }
  apply bind_inr_inv in Hbody as ([] & s7 & Hwhen & Hbody).
  unfold bind at 1 in Hbody. simpl in Hbody.
  assert (heap s2 = heap s7 ∧ _default_args s2 = _default_args s7) as [Hheap Hns].
  { pose proof (unknown_args_same_heap (set_parsed true s7)) as H1.
    destruct (unknown_args_same_namespace (set_parsed true s7)) as (H2 & _ & _).
    rewrite Hbody in H1, H2. by split. }
  unfold arg_value in Htopic |- *. rewrite Hheap, Hns in *.
  destruct tv; simpl in Hwhen.
  - injection Hwhen as <-. unfold arg_value in Htv. congruence.
  - done.
  - done.
  - apply bind_inr_inv in Hwhen as (parts & s8 & Hsplit & Hwhen).
    unfold lift in Hsplit. simpl in Hsplit. injection Hsplit as <- <-.
    apply bind_inr_inv in Hwhen as (third & s9 & Hitem & Hset).
    unfold lift, item in Hitem. rewrite list_lookup_fmap in Hitem.
    destruct (PyStr.split_scan "-" "" s0 0 !! 2) as [x|] eqn:Hthird;
      simpl in Hitem; [| done].
    injection Hitem as <- <-.
    unfold setattr, modify in Hset. injection Hset as <-. simpl in *.
    rewrite <- Hns5 in *. unfold arg_value in Htv.
    destruct (heap s5 !! _default_args s5) as [d5|] eqn:Hd5; [| done].
    simpl in Htv. rewrite lookup_alter_eq, Hd5 in *. simpl in *.
    rewrite lookup_insert_ne, Htv in Htopic by done.
    injection Htopic as ->. exists x. by rewrite lookup_insert_eq.
  - done.
  - done.
Qed.

Lemma args_service_id_witness :
  ∃ third,
    PyStr.split_scan "-" "" "svc-client-cc66d363" 0 !! 2 = Some third
    ∧ arg_value
        (args false
           (Fixtures.instance ["app.py"]
              (<[ "tc_svc_client_topic" := VStr "svc-client-cc66d363" ]>
                 Fixtures.flag_defaults))).2 "service_id"
      = Some (VStr third).
Proof.
  apply (args_service_id false
           (Fixtures.instance ["app.py"]
              (<[ "tc_svc_client_topic" := VStr "svc-client-cc66d363" ]>
                 Fixtures.flag_defaults)) 0
           (args false
              (Fixtures.instance ["app.py"]
                 (<[ "tc_svc_client_topic" := VStr "svc-client-cc66d363" ]>
                    Fixtures.flag_defaults))).2).
  - reflexivity.
  - apply result_inr. reflexivity.
  - vm_compute. reflexivity.
Defined.

(** *** The log level *)

Lemma getattr_inr ns name s v s' :
  getattr ns name s = (inr v, s') →
  s' = s ∧ heap s !! ns ≫= (λ d, d !! name) = Some v.
Proof. unfold getattr. destruct (_ ≫= _); intros H; by simplify_eq. Qed.

(** X13.  When [update_logging] returns, [tc_log_level] holds what it
    held, or what [logging] holds when it was [None]; every other
    attribute of the namespace is as it was. *)
Theorem update_logging_level s s' :
  update_logging s = (inr (), s') →
  arg_value s' "tc_log_level"
  = match arg_value s "tc_log_level" with
    | Some VNone => arg_value s "logging"
    | level => level
    end
  ∧ ∀ key, key ≠ "tc_log_level" → arg_value s' key = arg_value s key.
Proof.
  intros H. unfold update_logging in H.
  unfold bind at 1, gets at 1 in H.
  apply bind_inr_inv in H as (level & s0 & Hlevel & H).
  apply getattr_inr in Hlevel as [-> Hlevel].
  apply bind_inr_inv in H as ([] & s1 & Hwhen & Hrest).
  match type of Hrest with ?m s1 = _ =>
    assert (preserves same_heap m) as Hheap
      by (unfold tcex_log_level; pres solve_heap);
    assert (preserves same_namespace m) as Hns
      by (unfold tcex_log_level; pres solve_namespace);
    specialize (Hheap s1); destruct (Hns s1) as (Hns' & _ & _);
    rewrite Hrest in Hheap, Hns'
  end.
  simpl in Hheap, Hns'. unfold same_heap in Hheap. unfold arg_value.
  rewrite Hheap, Hns', Hlevel.
  destruct (is_none level) eqn:Hnone.
  - destruct level; try done. change (when true ?m) with m in Hwhen.
    apply bind_inr_inv in Hwhen as (logging & s2 & Hlogging & Hset).
    apply getattr_inr in Hlogging as [-> Hlogging].
    unfold setattr, modify in Hset. injection Hset as <-. simpl.
    rewrite Hlogging, lookup_alter_eq.
    destruct (heap s !! _default_args s) as [d|]; [| done]. simpl in *.
    split; [by rewrite lookup_insert_eq |].
    intros key Hkey. by rewrite lookup_insert_ne.
  - change (when false ?m) with (ret ()) in Hwhen. injection Hwhen as <-.
    rewrite Hlevel. split; [by destruct level |]. done.
Qed.

Lemma update_logging_level_witness :
  arg_value
    (update_logging
       (set_tcex_default_args 0
          (Fixtures.instance ["app.py"]
             (<[ "tc_log_level" := VNone ]>
                (<[ "logging" := VStr "debug" ]> Fixtures.flag_defaults))))).2
    "tc_log_level"
  = Some (VStr "debug").
Proof.
  etrans.
  - refine (proj1 (update_logging_level
             (set_tcex_default_args 0
                (Fixtures.instance ["app.py"]
                   (<[ "tc_log_level" := VNone ]>
                      (<[ "logging" := VStr "debug" ]> Fixtures.flag_defaults))))
             _ _)).
    apply result_inr. vm_compute. reflexivity.
  - vm_compute. reflexivity.
Defined.

(** *** Parameters that arrive after the command line was parsed *)

(** What both loaders do with the parameters they were given. *)
Lemma merge_loaded_params tcex params d' s d0 key :
  update_params tcex params = inr d' →
  heap s !! _default_args s = Some d0 →
  arg_value
    ((updated_params <- lift (update_params tcex params) ;;
      config (OVal (VDict updated_params)) true) s).2 key
  = merged_value (argv s) true d' d0 key.
Proof.
  intros Hup Hd0. unfold bind at 1. unfold lift. rewrite Hup.
  by apply config_value_arg_value.
Qed.

(** X14.  Parameters from the queue never take the place of a flag of the
    command line: with [tc_aot_enabled] set, after [_load_aot_params] a
    key whose flag is an element of [sys.argv] holds what it held, and any
    other key holds the coerced value of the parameters when they have
    one. *)
Theorem load_aot_params_merges tcex s d0 flag params d' key :
  heap s !! _default_args s = Some d0 →
  d0 !! "tc_aot_enabled" = Some flag → truthy flag = true →
  playbook_aot_blpop tcex = inr params →
  update_params tcex params = inr d' →
  arg_value (_load_aot_params tcex s).2 key
  = merged_value (argv s) true d' d0 key.
Proof.
  intros Hd0 Hflag Hon Hpop Hup. unfold _load_aot_params.
  unfold bind at 1. simpl. unfold bind at 1. simpl.
  unfold bind at 1. unfold getattr at 1. simpl. rewrite Hd0. simpl.
  rewrite Hflag, Hon. change (when true ?m) with m.
  unfold bind at 1. simpl. unfold bind at 1. unfold lift at 1. rewrite Hpop.
  by rewrite (merge_loaded_params tcex params d' _ d0 key).
Qed.

Lemma load_aot_params_merges_witness :
  arg_value (_load_aot_params tcex_queue owner_with_loaders).2 "owner"
  = Some (VStr "Acme")
  ∧ arg_value (_load_aot_params tcex_queue owner_with_loaders).2 "tags"
    = Some (VList [VStr "red"; VStr "green"]).
Proof.
  assert (update_params tcex_queue (VDict loaded_params)
          = inr coerced_params) as Hup
    by (vm_compute; reflexivity).
  split.
  - etrans; [apply (load_aot_params_merges tcex_queue owner_with_loaders
                      loaders_enabled (VBool true) (VDict loaded_params) coerced_params "owner");
             [reflexivity | reflexivity | reflexivity | reflexivity | exact Hup]
            | vm_compute; reflexivity].
  - etrans; [apply (load_aot_params_merges tcex_queue owner_with_loaders
                      loaders_enabled (VBool true) (VDict loaded_params) coerced_params "tags");
             [reflexivity | reflexivity | reflexivity | reflexivity | exact Hup]
            | vm_compute; reflexivity].
Defined.

(** What [_get_secure_params] returns when the remote service answers with
    a body that has [inputs]. *)
Lemma get_secure_params_returns tcex s body params :
  ok (session_get tcex "/internal/job/execution/parameters") = true →
  json (session_get tcex "/internal/job/execution/parameters") = inr body →
  subscript body "inputs" = inr params →
  _get_secure_params tcex s
  = (inr params,
     add_event (SessionGet "/internal/job/execution/parameters")
       (add_event (Log Info "Loading secure params.") s)).
Proof.
  intros Hok Hjson Hin. unfold _get_secure_params.
  unfold bind at 1. simpl. unfold bind at 1. simpl.
  rewrite Hok, Hjson. simpl. by rewrite Hin.
Qed.

(** X15.  Parameters from the remote service never take the place of a
    flag of the command line: with [tc_secure_params] set and an answer
    whose body has [inputs], after [_load_secure_params] a key whose flag
    is an element of [sys.argv] holds what it held, and any other key
    holds the coerced value of the inputs when they have one. *)
Theorem load_secure_params_merges tcex s d0 flag body params d' key :
  heap s !! _default_args s = Some d0 →
  d0 !! "tc_secure_params" = Some flag → truthy flag = true →
  ok (session_get tcex "/internal/job/execution/parameters") = true →
  json (session_get tcex "/internal/job/execution/parameters") = inr body →
  subscript body "inputs" = inr params →
  update_params tcex params = inr d' →
  arg_value (_load_secure_params tcex s).2 key
  = merged_value (argv s) true d' d0 key.
Proof.
  intros Hd0 Hflag Hon Hok Hjson Hin Hup. unfold _load_secure_params.
  unfold bind at 1. simpl. unfold bind at 1. simpl.
  unfold bind at 1. unfold getattr at 1. simpl. rewrite Hd0. simpl.
  rewrite Hflag, Hon. change (when true ?m) with m.
  unfold bind at 1.
  rewrite (get_secure_params_returns tcex _ body params Hok Hjson Hin).
  by rewrite (merge_loaded_params tcex params d' _ d0 key).
Qed.

Lemma load_secure_params_merges_witness :
  arg_value (_load_secure_params tcex_secure owner_with_loaders).2 "owner"
  = Some (VStr "Acme")
  ∧ arg_value (_load_secure_params tcex_secure owner_with_loaders).2 "tags"
    = Some (VList [VStr "red"; VStr "green"]).
Proof.
  assert (update_params tcex_secure (VDict loaded_params)
          = inr coerced_params) as Hup
    by (vm_compute; reflexivity).
  split.
  - etrans; [apply (load_secure_params_merges tcex_secure owner_with_loaders
                      loaders_enabled (VBool true)
                      (VDict {[ "inputs" := VDict loaded_params ]})
                      (VDict loaded_params) coerced_params "owner");
             [reflexivity | reflexivity | reflexivity | reflexivity | reflexivity
             | reflexivity | exact Hup]
            | vm_compute; reflexivity].
  - etrans; [apply (load_secure_params_merges tcex_secure owner_with_loaders
                      loaders_enabled (VBool true)
                      (VDict {[ "inputs" := VDict loaded_params ]})
                      (VDict loaded_params) coerced_params "tags");
             [reflexivity | reflexivity | reflexivity | reflexivity | reflexivity
             | reflexivity | exact Hup]
            | vm_compute; reflexivity].
Defined.

(** *** The results file *)

Global Instance same_files_preorder : PreOrder same_files.
Proof.
  split; [by intros s |].
  intros s1 s2 s3 H1 H2. unfold same_files in *. congruence.
Qed.

Ltac solve_files := reflexivity.

(** The loop over the lines leaves the files alone. *)
Lemma results_loop_same_files ns results :
  preserves same_files
    (for_each results (λ line,
       if String.eqb line "" || negb (PyStr.contains " = " line) then ret tt
       else
         match PyStr.split_scan " = " "" line 0 with
         | [key; value] => setattr ns key (result_value value)
         | _ => raise ValueError
         end)).
Proof. pres solve_files. Qed.

(** X16.  [_results_tc_args] uses the results file up: whatever its lines
    hold, and also when one of them makes it raise, afterwards that file
    is gone and every other file is as it was.  The file is
    [results.tc] under [tc_out_path] when that directory can be written
    to, and [results.tc] in the working directory when it cannot. *)
Theorem results_tc_args_consumes_file tcex s d0 path writable :
  heap s !! _default_args s = Some d0 →
  d0 !! "tc_out_path" = Some (VStr path) →
  os_access_w tcex path = inr writable →
  files (_results_tc_args tcex s).2
  = delete (results_file path writable) (files s).
Proof.
  intros Hd0 Hpath Hw. unfold _results_tc_args.
  unfold bind at 1. simpl.
  unfold bind at 1. unfold getattr at 1. rewrite Hd0. simpl. rewrite Hpath.
  unfold bind at 1. unfold bind at 1. unfold lift at 1. rewrite Hw. simpl.
  fold (results_file path writable).
  unfold bind at 1. simpl.
  destruct (files s !! results_file path writable) as [contents|] eqn:Hfile.
  - unfold bind at 1. unfold bind at 1. simpl.
    match goal with |- files (for_each ?r ?f ?s0).2 = _ =>
      rewrite (results_loop_same_files (_default_args s) r s0)
    end.
    done.
  - unfold bind at 1. simpl. by rewrite delete_id.
Qed.

Lemma results_tc_args_consumes_file_witness :
  (_results_tc_args Fixtures.tcex_plain results_boot).1 = inl ValueError
  ∧ files (_results_tc_args Fixtures.tcex_plain results_boot).2
    = {[ "notes.txt" := "kept" ]}.
Proof.
  split; [vm_compute; reflexivity |].
  etrans; [apply (results_tc_args_consumes_file Fixtures.tcex_plain results_boot
                    Fixtures.flag_defaults "out" false); reflexivity
          | vm_compute; reflexivity].
Defined.

End InputsMore.

(** ** [test_case.py]: the names a test case goes by *)

Module TestCaseDataFacts.
Import PyStr Re ReFacts PyStrFacts InputsSpec TestCaseData Grammar.

#[local] Arguments String.append !_ _ / : simpl nomatch.

Lemma startswith_append p s : startswith p (p +:+ s) = true.
Proof. unfold startswith. by rewrite strip_prefix_append. Qed.

Lemma startswith_extend p s t :
  startswith p s = true → startswith p (s +:+ t) = true.
Proof.
  unfold startswith. destruct (strip_prefix p s) as [u|] eqn:E; [| done].
  intros _. apply strip_prefix_Some in E as ->.
  by rewrite append_assoc, strip_prefix_append.
Qed.

Lemma endswith_refl s : endswith s s = true.
Proof. destruct s; simpl; [done |]. by rewrite Ascii.eqb_refl, String.eqb_refl. Qed.

Lemma endswith_after suffix a b :
  endswith suffix b = true → endswith suffix (a +:+ b) = true.
Proof.
  intros H. induction a as [|x a IH]; [done |].
  change (String x a +:+ b) with (String x (a +:+ b)).
  cbn [endswith]. rewrite IH. apply orb_true_r.
Qed.

Lemma endswith_append suffix s : endswith suffix (s +:+ suffix) = true.
Proof. apply endswith_after, endswith_refl. Qed.

(** A name that has the prefix and the closing brace is left as it
    is. *)
Lemma convert_variable_name_fixed v :
  startswith "${tcenv." v = true → endswith "}" v = true →
  _convert_variable_name v = v.
Proof.
  intros H1 H2. unfold _convert_variable_name. rewrite H1. cbn [negb].
  by rewrite H2.
Qed.

Lemma convert_variable_name_starts v :
  startswith "${tcenv." (_convert_variable_name v) = true.
Proof.
  unfold _convert_variable_name.
  destruct (startswith "${tcenv." v) eqn:E1; cbn [negb].
  - destruct (endswith "}" v); cbn [negb]; [done |]. by apply startswith_extend.
  - destruct (endswith "}" ("${tcenv." +:+ v)); cbn [negb].
    + apply startswith_append.
    + apply startswith_extend, startswith_append.
Qed.

Lemma convert_variable_name_ends v :
  endswith "}" (_convert_variable_name v) = true.
Proof.
  unfold _convert_variable_name.
  destruct (endswith "}" (if negb (startswith "${tcenv." v)
                          then "${tcenv." +:+ v else v)) eqn:E; cbn [negb].
  - done.
  - apply endswith_append.
Qed.

(** X17.  [_convert_variable_name] gives a name that starts with
    [${tcenv.] and ends with a closing brace, and converting a converted
    name changes nothing; so a variable added under a name and one added
    under the converted name are one entry of the dictionary. *)
Theorem convert_variable_name_idempotent (variable_name : string) :
  startswith "${tcenv." (_convert_variable_name variable_name) = true
  ∧ endswith "}" (_convert_variable_name variable_name) = true
  ∧ _convert_variable_name (_convert_variable_name variable_name)
    = _convert_variable_name variable_name
  ∧ ∀ outputs x y,
      add_tc_output_variable (add_tc_output_variable outputs variable_name x)
        (_convert_variable_name variable_name) y
      = add_tc_output_variable outputs variable_name y.
Proof.
  assert (_convert_variable_name (_convert_variable_name variable_name)
          = _convert_variable_name variable_name) as Hfix.
  { apply convert_variable_name_fixed;
      [apply convert_variable_name_starts | apply convert_variable_name_ends]. }
  split; [apply convert_variable_name_starts |].
  split; [apply convert_variable_name_ends |].
  split; [done |].
  intros outputs x y. unfold add_tc_output_variable.
  by rewrite Hfix, insert_insert_eq.
Qed.

(** *** The data of the current test *)

Lemma str_split_scan c sep s :
  str_split (String c sep) s = inr (split_scan (String c sep) "" s 0).
Proof. done. Qed.

Lemma at_last_split sep cur s skip :
  ∃ name, at_last (split_scan sep cur s skip) = inr name.
Proof.
  unfold at_last. destruct (split_scan_head sep cur s skip) as (t & l & ->).
  destruct (last_is_Some ((cur +:+ t) :: l)) as [_ [x ->]]; [done |].
  by exists x.
Qed.

(** With the variable set, [test_case_data] returns the pieces of the
    first word. *)
Lemma test_case_data_set environ current :
  environ !! "PYTEST_CURRENT_TEST" = Some current →
  ∃ t l, split_scan " " "" current 0 = t :: l
         ∧ test_case_data environ = inr (split_scan "::" "" t 0).
Proof.
  intros Henv. unfold test_case_data, getenv_str. rewrite Henv.
  cbn [and_then]. rewrite str_split_scan. cbn [and_then].
  destruct (split_scan_head " " "" current 0) as (t & l & Heq).
  exists ("" +:+ t), l. split; [done |]. by rewrite Heq.
Qed.

(** X18.  With [PYTEST_CURRENT_TEST] set, [test_case_name] returns, and
    the name it returns has no slash and no bracket. *)
Theorem test_case_name_clean environ current :
  environ !! "PYTEST_CURRENT_TEST" = Some current →
  ∃ name, test_case_name environ = inr name
          ∧ no_char "/" name = true
          ∧ no_char "[" name = true
          ∧ no_char "]" name = true.
Proof.
  intros Henv. unfold test_case_name.
  destruct (test_case_data_set environ current Henv) as (t & l & _ & ->).
  cbn [and_then].
  destruct (at_last_split "::" "" t 0) as [name ->]. cbn [and_then].
  eexists. split; [done |].
  assert (no_char "/" (replace "/" "-" name) = true) as H1
    by by apply replace_free.
  assert (no_char "[" (replace "[" "-" (replace "/" "-" name)) = true) as H2
    by by apply replace_free.
  split; [| split].
  - apply replace_all_chars; [done |]. by apply replace_all_chars.
  - by apply replace_all_chars.
  - by apply replace_free.
Qed.

Lemma test_case_name_clean_witness :
  ∃ name, test_case_name pytest_environ = inr name
          ∧ no_char "/" name = true
          ∧ no_char "[" name = true
          ∧ no_char "]" name = true.
Proof.
  apply (test_case_name_clean pytest_environ
           "tests/feature_1/test_profiles.py::test_profiles[basic/one] (call)").
  reflexivity.
Defined.

Lemma no_char_append c a b : no_char c (a +:+ b) = no_char c a && no_char c b.
Proof. apply all_chars_append. Qed.

Lemma unbroken_inv s :
  unbroken s = true → no_char " " s = true ∧ no_char ":" s = true.
Proof. unfold unbroken. by intros ?%andb_true_iff. Qed.

Lemma plain_inv s :
  plain s = true →
  no_char " " s = true ∧ no_char ":" s = true ∧ no_char "/" s = true.
Proof.
  unfold plain. intros [[? ?]%unbroken_inv ?]%andb_true_iff. done.
Qed.

(** The first piece of a split whose text starts with a run free of the
    first character of the separator starts with that run. *)
Lemma split_scan_run_head c sep a rest :
  no_char c a = true →
  ∃ t l, split_scan (String c sep) "" (a +:+ rest) 0 = (a +:+ t) :: l.
Proof.
  intros Ha. rewrite split_scan_run by done.
  destruct (split_scan_head (String c sep) ("" +:+ a) rest 0) as (t & l & ->).
  by exists t, l.
Qed.

(** The first piece is made of characters of the text. *)
Lemma split_scan_head_all_chars p sep s t l :
  all_chars p s = true → split_scan sep "" s 0 = t :: l → all_chars p t = true.
Proof.
  intros Hs Heq.
  pose proof (split_scan_all_chars p sep "" s 0 eq_refl Hs) as Hall.
  rewrite Heq in Hall. by inversion Hall.
Qed.

(** X19.  [test_case_feature] is the second part of the path of the test:
    for a test id that starts with [dir/feature/], where neither part has
    a blank, a colon or a slash, it returns [feature] (the replacement of
    slashes that ends the method finds none).  For a test id without a
    slash it raises [IndexError]. *)
Theorem test_case_feature_of_path environ current :
  environ !! "PYTEST_CURRENT_TEST" = Some current →
  (∀ dir feature rest,
     current = dir +:+ "/" +:+ feature +:+ "/" +:+ rest →
     plain dir = true → plain feature = true →
     test_case_feature environ = inr feature)
  ∧ (no_char "/" current = true → test_case_feature environ = inl IndexError).
Proof.
  intros Henv. unfold test_case_feature.
  destruct (test_case_data_set environ current Henv) as (t & l & Ht & ->).
  cbn [and_then]. split.
  - intros dir feature rest -> (Hd1 & Hd2 & Hd3)%plain_inv (Hf1 & Hf2 & Hf3)%plain_inv.
    set (front := dir +:+ "/" +:+ feature +:+ "/").
    assert (∀ c, no_char c dir = true → no_char c feature = true →
                 no_char c "/" = true → no_char c front = true) as Hfront.
    { intros c H1 H2 H3. unfold front.
      by rewrite !no_char_append, H1, H2, H3. }
    assert (dir +:+ "/" +:+ feature +:+ "/" +:+ rest = front +:+ rest) as Heq.
    { unfold front. by rewrite !append_assoc. }
    rewrite Heq in Ht.
    destruct (split_scan_run_head " " "" front rest) as (t1 & l1 & Ht1);
      [by apply Hfront |].
    rewrite Ht1 in Ht. injection Ht as <- <-.
    destruct (split_scan_run_head ":" ":" front t1) as (t2 & l2 & Ht2);
      [by apply Hfront |].
    change (String ":" ":") with "::" in Ht2. rewrite Ht2.
    unfold at_index at 1. cbn [lookup list_lookup and_then].
    rewrite str_split_scan. cbn [and_then].
    unfold front. rewrite !append_assoc.
    rewrite (split_scan_run "/" "" "" dir) by done.
    change ("" +:+ dir) with dir.
    change ("/" +:+ ?x) with (String "/" x).
    rewrite split_scan_separator.
    rewrite (split_scan_run "/" "" "" feature) by done.
    change ("" +:+ feature) with feature.
    change ("/" +:+ t2) with (String "/" t2).
    rewrite split_scan_separator.
    unfold at_index. cbn [lookup list_lookup and_then].
    by rewrite replace_absent.
  - intros Hfree.
    pose proof (split_scan_head_all_chars _ _ _ _ _ Hfree Ht) as Ht1.
    destruct (split_scan_head "::" "" t 0) as (t2 & l2 & Ht2).
    pose proof (split_scan_head_all_chars _ _ _ _ _ Ht1 Ht2) as Hfree2.
    rewrite Ht2. unfold at_index at 1. cbn [lookup list_lookup and_then].
    rewrite str_split_scan. cbn [and_then].
    rewrite <- (append_nil_r ("" +:+ t2)) at 1.
    rewrite split_scan_run by done. done.
Qed.

Lemma test_case_feature_of_path_witness :
  test_case_feature pytest_environ = inr "feature_1"
  ∧ test_case_feature {[ "PYTEST_CURRENT_TEST" := "test_profiles.py::test_a (call)" ]}
    = inl IndexError.
Proof.
  split.
  - apply (proj1 (test_case_feature_of_path pytest_environ _ eq_refl)
             "tests" "feature_1" "test_profiles.py::test_profiles[basic/one] (call)");
      reflexivity.
  - assert (({[ "PYTEST_CURRENT_TEST" := "test_profiles.py::test_a (call)" ]}
               : gmap string string) !! "PYTEST_CURRENT_TEST"
            = Some "test_profiles.py::test_a (call)") as Henv by reflexivity.
    apply (proj2 (test_case_feature_of_path _ _ Henv)). reflexivity.
Defined.

(** *** The profile of the current test *)

(** A greedy run that takes one character too many gives it back. *)
Lemma greedy_retreat cls a c pos k r :
  all_chars cls a = true → cls c = true →
  k (pos + String.length a + 1)%nat "" = None →
  k (pos + String.length a)%nat (String c "") = Some r →
  greedy cls pos (a +:+ String c "") k = Some r.
Proof.
  revert pos. induction a as [|x a IH]; intros pos Ha Hc Hnone Hk.
  - simpl in *. rewrite Nat.add_0_r in *. rewrite Hc.
    replace (S pos) with (pos + 1)%nat by lia. by rewrite Hnone.
  - simpl in Ha. apply andb_true_iff in Ha as [Hx Ha].
    change (String x a +:+ String c "") with (String x (a +:+ String c "")).
    cbn [greedy]. rewrite Hx.
    rewrite (IH (S pos)); [done | done | done | |].
    + by replace (S pos + String.length a + 1)%nat
        with (pos + String.length (String x a) + 1)%nat by (simpl; lia).
    + by replace (S pos + String.length a)%nat
        with (pos + String.length (String x a))%nat by (simpl; lia).
Qed.

(** The pattern takes the name of a test function with its profile, and
    the group is the profile. *)
Lemma name_pattern_match name profile :
  made_of word_char name → profile ≠ "" →
  all_chars TestCase.dot profile = true →
  re_search name_pattern (test_function name profile) = Some {[ 1%nat := profile ]}.
Proof.
  intros [Hne Hname] Hp Hdot. unfold re_search. apply search_from_hit.
  unfold name_pattern, test_function.
  rewrite run_seq, run_bol, run_seq. apply run_lit.
  rewrite run_seq. apply run_plus; [done | done | done |].
  rewrite run_seq. apply run_lit.
  rewrite run_seq, run_group.
  destruct profile as [|x p]; [done |].
  simpl in Hdot. apply andb_true_iff in Hdot as [Hx Hdot].
  change (String x p +:+ "]") with (String x (p +:+ "]")).
  cbn [run]. rewrite Hx.
  apply greedy_retreat; [done | done | done |].
  cbn [run strip_prefix]. rewrite Ascii.eqb_refl. unfold accept.
  f_equal.
  match goal with |- context [take ?n _] =>
    replace n with (S (String.length p)) by lia
  end.
  by rewrite take_cons, take_append.
Qed.

Lemma word_char_unbroken name :
  all_chars word_char name = true → unbroken name = true.
Proof.
  intros H. unfold unbroken, no_char. apply andb_true_iff. split.
  - apply (ValidationFacts.all_chars_impl word_char); [| done].
    intros c Hc. destruct (Ascii.eqb_spec c " ") as [-> |]; done.
  - apply (ValidationFacts.all_chars_impl word_char); [| done].
    intros c Hc. destruct (Ascii.eqb_spec c ":") as [-> |]; done.
Qed.

(** The data of a test id of the usual form: the path and the test
    function. *)
Lemma test_case_data_current_test environ path name profile stage :
  environ !! "PYTEST_CURRENT_TEST" = Some (current_test path name profile stage) →
  unbroken path = true → all_chars word_char name = true →
  unbroken profile = true →
  test_case_data environ = inr [path; test_function name profile].
Proof.
  intros Henv [Hp1 Hp2]%unbroken_inv [Hn1 Hn2]%word_char_unbroken%unbroken_inv
    [Hq1 Hq2]%unbroken_inv.
  destruct (test_case_data_set environ _ Henv) as (t & l & Ht & ->).
  assert (∀ c, no_char c name = true → no_char c profile = true →
               no_char c "test_[]" = true →
               no_char c (test_function name profile) = true) as Hfun.
  { intros c H1 H2 H3. unfold test_function.
    rewrite !no_char_append, H1, H2.
    unfold no_char in *. simpl in *.
    repeat (apply andb_true_iff in H3 as [? H3]).
    repeat (apply andb_true_iff; split); done. }
  unfold current_test in Ht.
  set (first := path +:+ "::" +:+ test_function name profile).
  assert (path +:+ "::" +:+ test_function name profile +:+ " " +:+ stage
          = first +:+ String " " stage) as Heq.
  { unfold first. by rewrite !append_assoc. }
  rewrite Heq in Ht.
  rewrite (split_scan_run " " "" "" first) in Ht.
  2:{ unfold first. rewrite !no_char_append, Hp1. by rewrite Hfun. }
  rewrite split_scan_separator in Ht. injection Ht as <- _.
  change ("" +:+ first) with first. unfold first.
  change "::" with (String ":" ":") at 2.
  rewrite (split_scan_run ":" ":" "" path) by done.
  change ("" +:+ path) with path.
  change ("::" +:+ ?x) with (String ":" (String ":" x)).
  cbn [split_scan strip_prefix]. rewrite !Ascii.eqb_refl.
  cbn [String.length Nat.sub split_scan].
  rewrite <- (append_nil_r (test_function name profile)) at 1.
  rewrite (split_scan_run ":" ":" "") by by apply Hfun.
  done.
Qed.

(** X20.  [profile_name] of a test id of the usual form is the text
    between the brackets: for [path::test_NAME[PROFILE] stage], where the
    path and the profile have neither a blank nor a colon, NAME is made of
    word characters and PROFILE is not empty and has no line break, it
    returns PROFILE. *)
Theorem profile_name_of_current_test environ path name profile stage :
  environ !! "PYTEST_CURRENT_TEST" = Some (current_test path name profile stage) →
  unbroken path = true → made_of word_char name →
  profile ≠ "" → unbroken profile = true →
  all_chars TestCase.dot profile = true →
  profile_name environ = inr (Some profile).
Proof.
  intros Henv Hpath Hname Hne Hprofile Hdot.
  unfold profile_name, profile_name_search.
  rewrite (test_case_data_current_test environ path name profile stage)
    by (done || apply Hname).
  cbn [and_then at_last last].
  rewrite name_pattern_match by done.
  by rewrite lookup_singleton_eq.
Qed.

Lemma profile_name_of_current_test_witness :
  profile_name pytest_environ = inr (Some "basic/one").
Proof.
  apply (profile_name_of_current_test pytest_environ
           "tests/feature_1/test_profiles.py" "profiles" "basic/one" "(call)").
  - reflexivity.
  - reflexivity.
  - split; [discriminate | reflexivity].
  - discriminate.
  - reflexivity.
  - reflexivity.
Defined.

(** X21.  [profile_name] never raises: whatever the environment holds,
    it returns, and what it returns without [PYTEST_CURRENT_TEST] is
    [None]. *)
Theorem profile_name_returns environ :
  (∃ r, profile_name environ = inr r)
  ∧ (environ !! "PYTEST_CURRENT_TEST" = None → profile_name environ = inr None).
Proof.
  split.
  - unfold profile_name, profile_name_search.
    destruct (environ !! "PYTEST_CURRENT_TEST") as [current|] eqn:Henv.
    + destruct (test_case_data_set environ current Henv) as (t & l & _ & ->).
      cbn [and_then].
      destruct (at_last_split "::" "" t 0) as [name ->]. cbn [and_then].
      destruct (re_search name_pattern name); by eexists.
    + unfold test_case_data, getenv_str. rewrite Henv. by eexists.
  - intros Henv. unfold profile_name, profile_name_search, test_case_data, getenv_str.
    by rewrite Henv.
Qed.

Lemma profile_name_returns_witness :
  profile_name ∅ = inr None.
Proof. apply (proj2 (profile_name_returns ∅)). reflexivity. Defined.



End TestCaseDataFacts.

(** ** [test.py]: output variables and the test file *)

Module TestBinFacts.
Import PyStr ReFacts PyStrFacts InputsSpec ValidationTemplates Grammar.
Import TestCaseData TestCaseDataFacts TestBin.

#[local] Arguments String.append !_ _ / : simpl nomatch.

(** *** The variables of the outputs *)

(** The variable of a declared output is a variable of the grammar. *)
Lemma output_variable_accepted level p name ty :
  declared p name ty →
  ∃ v ns, output_variable (VStr level) p = inr v ∧ accepts v ns "9876" name ty.
Proof.
  intros (Hname & Hty & Hn & Ht). unfold output_variable, py_lower.
  cbn [and_then]. rewrite Hname, Hty. cbn [fmt_member].
  destruct (bool_decide (lower level ∈ ["triggerservice"; "webhooktriggerservice"])).
  - exists (variable "Trigger" "9876" name ty), "Trigger".
    split; [done |]. split; [done |]. split; [by split |]. by split.
  - exists (variable "App" "9876" name ty), "App".
    split; [done |]. split; [done |]. split; [by split |]. by split.
Qed.

Lemma output_variables_loop_declared level ps acc :
  Forall (λ p, ∃ name ty, declared p name ty) ps →
  ∃ vars, output_variables_loop (VStr level) ps acc = (inr (), acc ++ vars)
          ∧ Forall2 variable_of ps vars.
Proof.
  intros Hps. revert acc. induction Hps as [|p ps (name & ty & Hp) Hps IH]; intros acc.
  - exists []. split; [by rewrite app_nil_r | constructor].
  - destruct (output_variable_accepted level p name ty Hp) as (v & ns & Hv & Hacc).
    destruct (IH (acc ++ [v])) as (vars & Hloop & Hall).
    exists (v :: vars). cbn [output_variables_loop]. rewrite Hv, Hloop.
    split; [by rewrite <- app_assoc |].
    constructor; [| done]. exists name, ty, ns.
    split; [done |]. split; [done |].
    by apply (ValidationFacts.method_name_of_variable v ns "9876").
Qed.

(** X23.  The variables [output_variables] builds from declared outputs
    are variables of the grammar of [_method_name]: with a string as
    runtime level and outputs whose names and types the grammar takes,
    the first access returns one variable for each output, in their
    order, and [_method_name] gives each of them the method name of the
    name and type of its output. *)
Theorem output_variables_have_methods level outputs :
  Forall (λ p, ∃ name ty, declared p name ty) outputs →
  ∃ vars, output_variables (VStr level) (Some outputs) None = (inr vars, Some vars)
          ∧ Forall2 variable_of outputs vars.
Proof.
  intros Hps.
  destruct (output_variables_loop_declared level outputs [] Hps)
    as (vars & Hloop & Hall).
  exists vars. unfold output_variables.
  change (default [] (Some outputs)) with outputs. by rewrite Hloop.
Qed.

Lemma output_variables_have_methods_witness :
  ∃ vars,
    output_variables (VStr "Playbook")
      (Some [ {[ "name" := "http.content"; "type" := "Binary" ]};
              {[ "name" := "app.count"; "type" := "String" ]} ]) None
    = (inr vars, Some vars)
    ∧ Forall2 variable_of
        [ {[ "name" := "http.content"; "type" := "Binary" ]};
          {[ "name" := "app.count"; "type" := "String" ]} ] vars.
Proof.
  apply (output_variables_have_methods "Playbook").
  repeat constructor.
  - exists "http.content", "Binary".
    split; [reflexivity |]. split; [reflexivity |].
    split; [by split |]. left. unfold keyword_types. by repeat constructor.
  - exists "app.count", "String".
    split; [reflexivity |]. split; [reflexivity |].
    split; [by split |]. left. unfold keyword_types. by repeat constructor.
Defined.

(** *** The order of the entries *)

Lemma ltb_leb x y : String.ltb x y = true → String.leb x y = true.
Proof. unfold String.ltb, String.leb. by destruct (String.compare x y). Qed.

Lemma not_ltb_leb x y : String.ltb y x = false → String.leb x y = true.
Proof.
  unfold String.ltb, String.leb. rewrite (String.compare_antisym x y).
  by destruct (String.compare y x).
Qed.

(** An entry with a method finds its place in a list of entries with
    methods that are in order. *)
Lemma insert_by_method_in_order x l :
  is_Some x.1 → Forall (λ e : entry, is_Some e.1) l → in_order l →
  ∃ l', insert_by_method x l = inr l' ∧ l' ≡ₚ x :: l ∧ in_order l'
        ∧ ∀ y, method_le y x → leads y l → leads y l'.
Proof.
  intros [kx Hx] Hl. induction Hl as [|y l [ky Hy] Hl IH]; intros Hord.
  - exists [x]. by repeat split.
  - destruct Hord as [Hlead Hord]. cbn [insert_by_method].
    rewrite Hx, Hy. cbn [key_lt and_then].
    destruct (String.ltb ky kx) eqn:Hlt.
    + destruct (IH Hord) as (l' & -> & Hperm & Hord' & Hleads).
      exists (y :: l'). cbn [and_then]. split; [done |]. split.
      { rewrite Hperm. apply perm_swap. }
      split.
      * split; [| done]. apply Hleads; [| done].
        unfold method_le. rewrite Hx, Hy. by apply ltb_leb.
      * intros z _ Hz. done.
    + exists (x :: y :: l). split; [done |]. split; [done |]. split.
      * split; [| by split]. unfold leads, method_le. rewrite Hx, Hy.
        by apply not_ltb_leb.
      * intros z Hz _. done.
Qed.

Lemma sorted_by_method_in_order l :
  Forall (λ e : entry, is_Some e.1) l →
  ∃ l', sorted_by_method l = inr l' ∧ l' ≡ₚ l ∧ in_order l'.
Proof.
  intros Hl. induction Hl as [|x l Hx Hl IH].
  - by exists [].
  - destruct IH as (l0 & Hsort & Hperm & Hord).
    destruct (insert_by_method_in_order x l0 Hx) as (l' & Hins & Hperm' & Hord' & _);
      [by rewrite Hperm | done |].
    exists l'. cbn [sorted_by_method]. rewrite Hsort. cbn [and_then].
    split; [done |]. split; [| done]. by rewrite Hperm', Hperm.
Qed.

(** The entries of variables of the grammar, before they are sorted. *)
Lemma output_entries_grammar vars :
  Forall in_grammar vars →
  ∃ entries, output_entries vars = inr entries ∧ entries.*2 = vars
             ∧ Forall (λ e : entry, is_Some e.1
                                    ∧ _method_name (Some e.2) = inr e.1) entries.
Proof.
  intros Hvars. induction Hvars as [|v vars (ns & id & name & ty & Hv) Hvars IH].
  - by exists [].
  - destruct IH as (entries & Hent & Hsnd & Hall).
    pose proof (ValidationFacts.method_name_of_variable v ns id name ty Hv) as Hm.
    exists ((Some (method_name name ty), v) :: entries).
    cbn [output_entries]. rewrite Hm, Hent. cbn [and_then].
    split; [done |]. split; [by rewrite fmap_cons, Hsnd |].
    constructor; [| done]. by split.
Qed.

(** X24.  [output_data] on variables of the grammar returns: one entry
    for each variable and no other, each with the method name
    [_method_name] gives its variable, each entry and the next in the
    order of their method names. *)
Theorem output_data_in_order vars :
  Forall in_grammar vars →
  ∃ entries, output_data vars = inr entries
             ∧ entries.*2 ≡ₚ vars
             ∧ Forall (λ e : entry, _method_name (Some e.2) = inr e.1) entries
             ∧ in_order entries.
Proof.
  intros Hvars.
  destruct (output_entries_grammar vars Hvars) as (entries & Hent & Hsnd & Hall).
  destruct (sorted_by_method_in_order entries) as (l' & Hsort & Hperm & Hord).
  { eapply Forall_impl; [done |]. by intros e [? _]. }
  exists l'. unfold output_data. rewrite Hent. cbn [and_then].
  split; [done |]. split; [by rewrite Hperm, Hsnd |]. split; [| done].
  rewrite Hperm. eapply Forall_impl; [done |]. by intros e [_ ?].
Qed.

Lemma output_data_in_order_witness :
  output_data [ "#App:9876:http.content!Binary"; "#App:9876:app.count!String" ]
  = inr [ (Some "app_count_string", "#App:9876:app.count!String");
          (Some "http_content_binary", "#App:9876:http.content!Binary") ]
  ∧ ∃ entries,
      output_data [ "#App:9876:http.content!Binary"; "#App:9876:app.count!String" ]
      = inr entries
      ∧ entries.*2 ≡ₚ [ "#App:9876:http.content!Binary"; "#App:9876:app.count!String" ]
      ∧ Forall (λ e : entry, _method_name (Some e.2) = inr e.1) entries
      ∧ in_order entries.
Proof.
  split; [vm_compute; reflexivity |].
  apply output_data_in_order. repeat constructor.
  - exists "App", "9876", "http.content", "Binary".
    split; [reflexivity |]. split; [by split |]. split; [by split |].
    split; [by split |]. left. unfold keyword_types. by repeat constructor.
  - exists "App", "9876", "app.count", "String".
    split; [reflexivity |]. split; [by split |]. split; [by split |].
    split; [by split |]. left. unfold keyword_types. by repeat constructor.
Defined.

(** *** A variable that is not of the grammar *)

(** [_method_name] returns for every string: a method name for a
    variable of the grammar, [None] for any other string. *)
Lemma method_name_returns v :
  (∃ m, _method_name (Some v) = inr (Some m))
  ∨ _method_name (Some v) = inr None.
Proof.
  destruct (Re.re_match _variable_match (strip v)) as [m|] eqn:E.
  - apply ValidationFacts.variable_match_inv in E as (ns & id & name & ty & Hacc).
    left. exists (method_name name ty).
    by apply (ValidationFacts.method_name_accepts v ns id name ty).
  - right. unfold _method_name. by rewrite E.
Qed.

Lemma method_name_outside v :
  ¬ in_grammar (strip v) → _method_name (Some v) = inr None.
Proof.
  intros Hno. unfold _method_name.
  destruct (Re.re_match _variable_match (strip v)) as [m|] eqn:E; [| done].
  by apply ValidationFacts.variable_match_inv in E.
Qed.

(** The entries of any variables. *)
Lemma output_entries_returns vars :
  ∃ entries, output_entries vars = inr entries
             ∧ Forall2 (λ v (e : entry), _method_name (Some v) = inr e.1) vars entries.
Proof.
  induction vars as [|v vars (entries & Hent & Hall)].
  - exists []. by split; [| constructor].
  - cbn [output_entries]. rewrite Hent.
    destruct (method_name_returns v) as [[m Hm] | Hm]; rewrite Hm; cbn [and_then];
      eexists; (split; [done |]); by constructor.
Qed.

(** An entry cannot be placed before one when either has no method. *)
Lemma insert_by_method_none x y l :
  x.1 = None ∨ y.1 = None → insert_by_method x (y :: l) = inl TypeError.
Proof.
  intros H. cbn [insert_by_method]. destruct (y.1), (x.1); try done.
  by destruct H.
Qed.

Lemma no_method (e : entry) : ¬ is_Some e.1 → e.1 = None.
Proof. destruct (e.1); [| done]. intros H. destruct H. by eexists. Qed.

(** Two entries or more, one of them without a method, cannot be
    sorted. *)
Lemma sorted_by_method_raises l :
  2 ≤ length l → ¬ Forall (λ e : entry, is_Some e.1) l →
  sorted_by_method l = inl TypeError.
Proof.
  induction l as [|x l IH]; intros Hlen Hnot; [simpl in Hlen; lia |].
  cbn [sorted_by_method].
  destruct (decide (Forall (λ e : entry, is_Some e.1) l)) as [Hall | Hnall].
  - destruct (sorted_by_method_in_order l Hall) as (l' & -> & Hperm & _).
    cbn [and_then]. destruct l' as [|y l'].
    + symmetry in Hperm. apply Permutation_nil_r in Hperm. subst l.
      simpl in Hlen. lia.
    + apply insert_by_method_none. left. apply no_method.
      intros Hx. apply Hnot. by constructor.
  - destruct l as [|y l]; [exfalso; apply Hnall; constructor |].
    destruct l as [|z l].
    + change (sorted_by_method [y]) with (inr [y] : exn + list entry).
      cbn [and_then].
      apply insert_by_method_none. right. apply no_method.
      intros Hy. apply Hnall. by repeat constructor.
    + rewrite IH; [done | simpl; lia | done].
Qed.

(** X25.  [output_data] cannot sort what has no method name: with two
    variables or more, one of which is not of the grammar after it is
    stripped, it raises [TypeError]. *)
Theorem output_data_raises vars v :
  2 ≤ length vars → v ∈ vars → ¬ in_grammar (strip v) →
  output_data vars = inl TypeError.
Proof.
  intros Hlen Hv Hno.
  destruct (output_entries_returns vars) as (entries & Hent & Hall).
  unfold output_data. rewrite Hent. cbn [and_then].
  apply sorted_by_method_raises.
  - by rewrite <- (Forall2_length _ _ _ Hall).
  - intros Hsome. apply list_elem_of_lookup_1 in Hv as [i Hi].
    destruct (Forall2_lookup_l _ _ _ _ _ Hall Hi) as (e & He & Hm).
    rewrite (method_name_outside v Hno) in Hm.
    destruct (Forall_lookup_1 _ _ _ _ Hsome He) as [m Hsm].
    rewrite Hsm in Hm. done.
Qed.

Lemma output_data_raises_witness :
  output_data [ "#App:9876:http.content!Binary"; "content" ] = inl TypeError.
Proof.
  apply (output_data_raises _ "content").
  - simpl. lia.
  - repeat constructor.
  - intros (ns & id & name & ty & Heq & _).
    change (strip "content") with "content" in Heq.
    unfold variable in Heq. simpl in Heq. discriminate.
Defined.

(** *** The test file *)

(** The name [test_file] leaves in [self.args.file]: it starts with
    [test_], ends with [.py] and is not empty. *)
Lemma test_file_name f :
  let f1 := if negb (startswith "test_" f) then "test_" +:+ f else f in
  let f2 := if negb (endswith ".py" f1) then f1 +:+ ".py" else f1 in
  startswith "test_" f2 = true ∧ endswith ".py" f2 = true.
Proof.
  intros f1 f2.
  assert (startswith "test_" f1 = true) as H1.
  { subst f1. destruct (startswith "test_" f) eqn:E; cbn [negb]; [done |].
    apply startswith_append. }
  split.
  - subst f2. destruct (endswith ".py" f1); cbn [negb]; [done |].
    by apply startswith_extend.
  - subst f2. destruct (endswith ".py" f1) eqn:E; cbn [negb]; [done |].
    apply endswith_append.
Qed.

Lemma startswith_test_solid f :
  startswith "test_" f = true →
  String.eqb f "" = false ∧ startswith "/" f = false.
Proof.
  unfold startswith. destruct (strip_prefix "test_" f) as [u|] eqn:E; [| done].
  intros _. apply strip_prefix_Some in E as ->. done.
Qed.

(** X26.  [test_file] settles on one name: a second access returns the
    path the first one returned and leaves [self.args.file] as the first
    one left it; and the path it returns ends with [.py]. *)
Theorem test_file_stable base_dir feature file :
  test_file base_dir feature (test_file base_dir feature file).2
  = test_file base_dir feature file
  ∧ ∀ path, (test_file base_dir feature file).1 = Some path →
            endswith ".py" path = true.
Proof.
  destruct file as [f|]; [| done]. unfold test_file at 2 3 4.
  destruct (String.eqb f "") eqn:Hf.
  { split; [| done]. cbn [snd]. unfold test_file. by rewrite Hf. }
  destruct (test_file_name f) as [Hstart Hend].
  cbv zeta in Hstart, Hend.
  set (f2 := if negb (endswith ".py" (if negb (startswith "test_" f)
                                      then "test_" +:+ f else f))
             then (if negb (startswith "test_" f) then "test_" +:+ f else f)
                  +:+ ".py"
             else (if negb (startswith "test_" f) then "test_" +:+ f else f)) in *.
  destruct (startswith_test_solid f2 Hstart) as [Hne Hrel].
  cbn [fst snd]. split.
  - unfold test_file. rewrite Hne, Hstart. cbn [negb]. by rewrite Hend.
  - intros path [= <-]. unfold path_join. cbn [foldl].
    unfold path_join2 at 1. rewrite Hrel.
    destruct (String.eqb _ "" || endswith "/" _).
    + by apply endswith_after.
    + by apply endswith_after, endswith_after.
Qed.

Lemma test_file_stable_witness :
  endswith ".py" "tests/feature_1/test_profiles.py" = true.
Proof.
  apply (proj2 (test_file_stable "tests" "feature_1" (Some "profiles"))
           "tests/feature_1/test_profiles.py").
  reflexivity.
Defined.

End TestBinFacts.
